(** * Go-kart racing line finder: the geometry, lap simulation and optimizer core

    A shallow embedding of the numeric core of
    [src/go_kart_racing_line_finder_single_file_react_app.jsx]
    (functions [distance], [resamplePath], [smoothPath], [computeCurvature],
    [simulateLap], [computeCenterlineFromEdges] and [optimizeRacingLine]), of
    the component's state with its drawing, calibration, Clear and input
    handlers, and the properties of them that the specification states or
    that the code shows.

    JavaScript numbers are IEEE 754 binary64 values; they are modelled by
    Rocq's primitive floats, so every definition below evaluates exactly as
    the source does.  Loop counters and array indices, which the source keeps
    below 2^53, are natural numbers, converted with [Num] where the source
    uses them in arithmetic.  Arrays are lists, read with stdpp's lookup and
    updated in place with stdpp's insert. *)

From Stdlib Require Import ZArith Floats Lia.
From Stdlib Require Uint63 String.
From stdpp Require Import base option list.

Set Warnings "-inexact-float".

#[local] Open Scope float_scope.

(** ** JavaScript numbers *)

Module JS.

(** [ToBoolean] of a number: zero (of either sign) and NaN are falsy. *)
Definition truthy (a : float) : bool := negb (PrimFloat.is_zero a || PrimFloat.is_nan a).

(** [a || b] on numbers. *)
Definition or (a b : float) : float := if truthy a then a else b.

(** The loop counter or array length [k] as a number. *)
Definition Num (k : nat) : float := PrimFloat.of_uint63 (Uint63.of_Z (Z.of_nat k)).

(** The integer part of a finite number, rounded towards minus infinity;
    [None] for NaN and the infinities. *)
Definition floorZ (a : float) : option Z :=
  match Prim2SF a with
  | S754_zero _ => Some 0%Z
  | S754_finite s m e => Some (Z.shiftl (cond_Zopp s (Zpos m)) e)
  | _ => None
  end.

(** An integer as a number; [neg_zero] chooses the sign of a zero result.
    Only used below 2^53, where the conversion is exact. *)
Definition ofZ (neg_zero : bool) (z : Z) : float :=
  match z with
  | Z0 => if neg_zero then (-0) else 0
  | Zpos _ => PrimFloat.of_uint63 (Uint63.of_Z z)
  | Zneg _ => - PrimFloat.of_uint63 (Uint63.of_Z (- z))
  end.

Definition sign_bit (a : float) : bool := PrimFloat.get_sign a.

End JS.

(** ** The [Math] object *)

Module Math.

Definition abs (a : float) : float := PrimFloat.abs a.
Definition sqrt (a : float) : float := PrimFloat.sqrt a.

(** [Math.min(a, b)]: NaN when either is NaN, and [-0] counts below [+0]. *)
Definition min (a b : float) : float :=
  if PrimFloat.is_nan a || PrimFloat.is_nan b then nan
  else if a <? b then a
  else if b <? a then b
  else if JS.sign_bit a then a else b.

(** [Math.max(a, b)]: NaN when either is NaN, and [+0] counts above [-0]. *)
Definition max (a b : float) : float :=
  if PrimFloat.is_nan a || PrimFloat.is_nan b then nan
  else if a <? b then b
  else if b <? a then a
  else if JS.sign_bit a then b else a.

(** [Math.min(a, b, c)]. *)
Definition min3 (a b c : float) : float := min (min a b) c.

(** [Math.floor(a)]: NaN, the infinities and the zeros are returned as they
    are; a finite number is exact once its exponent is non-negative. *)
Definition floor (a : float) : float :=
  match Prim2SF a with
  | S754_finite s m e =>
      if (0 <=? e)%Z then a else JS.ofZ s (Z.shiftl (cond_Zopp s (Zpos m)) e)
  | _ => a
  end.

(** [Math.round(a)]: the integer nearest to [a], a tie going towards plus
    infinity: [floor(a + 1/2)] computed without rounding. *)
Definition round (a : float) : float :=
  match Prim2SF a with
  | S754_finite s m e =>
      if (0 <=? e)%Z then a
      else
        let q := Z.shiftl 1 (- e) in
        JS.ofZ s ((2 * cond_Zopp s (Zpos m) + q) / (2 * q))
  | _ => a
  end.

End Math.

(** ** Data model *)

(** A point [{x, y}] of a path, in canvas pixels. *)
Record point : Type := Point { x : float; y : float }.

(** One element of [computeCurvature]'s result: [{kappa, tx, ty}]. *)
Record curvature : Type := Curvature { kappa : float; tx : float; ty : float }.

(** The physics bundle [{pxToMeter, tyreMu, maxBrakeAccel, enginePower, vTop}].
    It is both the component's state and what every caller passes as
    [options]. *)
Record physics : Type := Physics {
  pxToMeter : float;
  tyreMu : float;
  maxBrakeAccel : float;
  enginePower : float;
  vTop : float
}.

(** What [simulateLap] returns: [{time, speedProfile, dist, speedLimit}]. *)
Record lap : Type := Lap {
  time : float;
  speedProfile : list float;
  dist : list float;
  speedLimit : list float
}.

(** How a call ends.  [TypeError]: a property of [undefined] was read.
    [Diverges]: a loop whose bound is infinite never exits. *)
Inductive result (A : Type) : Type :=
  | Ok (a : A)
  | TypeError
  | Diverges.
Arguments Ok {A} a.
Arguments TypeError {A}.
Arguments Diverges {A}.

(** Reading a numeric array past its end gives [undefined], which arithmetic
    and comparisons take as NaN. *)
#[global] Instance float_inhabited : Inhabited float := populate nan.
#[global] Instance point_inhabited : Inhabited point := populate (Point nan nan).

(** The error monad of code that can throw, with stdpp's notation
    [a ← r; k]. *)
#[global] Instance result_ret : MRet result := fun _ a => Ok a.
#[global] Instance result_bind : MBind result := fun _ _ k r =>
  match r with
  | Ok a => k a
  | TypeError => TypeError
  | Diverges => Diverges
  end.

(** Run the loop body [f] for each index of [idx] in turn, pushing its result. *)
Fixpoint for_push {A : Type} (f : nat -> result A) (idx : list nat) : result (list A) :=
  match idx with
  | [] => Ok []
  | i :: rest => a ← f i; out ← for_push f rest; Ok (a :: out)
  end.

(** The number of times the body of [for(let i=0;i<=n;i++)] runs: none when
    [n] is NaN or negative, [floor(n)+1] for a finite [n] below 2^53, and
    without end otherwise ([None]), since [i] stops growing at 2^53. *)
Definition iterations_upto (n : float) : option nat :=
  if PrimFloat.is_nan n || (n <? 0) then Some 0%nat
  else match JS.floorZ n with
       | Some z => if (z <? 2 ^ 53)%Z then Some (Z.to_nat z + 1)%nat else None
       | None => None
       end.

(** ** Geometry helpers *)

Section Geometry.

(** [Math.hypot] of two arguments.  ECMAScript leaves its precision to the
    implementation, so it is a parameter of the model; [hypot_ref] below is
    the instance the examples are evaluated with. *)
Variable hypot : float -> float -> float.

Definition distance (a b : point) : float :=
  hypot (a.(x) - b.(x)) (a.(y) - b.(y)).

(** [d=[0]; for(i=1;i<pts.length;i++) d.push(d[i-1]+distance(pts[i],pts[i-1]))] *)
Definition cumulative (pts : list point) : list float :=
  fold_left
    (fun d i => d ++ [d !!! (i - 1)%nat + distance (pts !!! i) (pts !!! (i - 1)%nat)])
    (seq 1 (length pts - 1)) [0].

(** [let j=0; while(j<d.length-1 && d[j+1]<t) j++;] where [next] holds
    [d[j+1], d[j+2], ...]: the loop stops at the first entry that is not
    below [t], or at [j = d.length-1] when [next] is used up. *)
Fixpoint seek (next : list float) (t : float) (j : nat) : nat :=
  match next with
  | dj1 :: rest => if dj1 <? t then seek rest t (S j) else j
  | [] => j
  end.

(** The body of [resamplePath]'s sampling loop for the counter [i]. *)
Definition sample (pts : list point) (d : list float) (n total : float) (i : nat)
  : result point :=
  let t := (JS.Num i / n) * total in
  let j := seek (tail d) t 0 in
  let tt := (t - d !!! j) / JS.or (d !!! (j + 1)%nat - d !!! j) 1 in
  match pts !! j, pts !! (j + 1)%nat with
  | Some pj, Some pj1 =>
      Ok (Point (pj.(x) + (pj1.(x) - pj.(x)) * tt) (pj.(y) + (pj1.(y) - pj.(y)) * tt))
  | _, _ => TypeError
  end.

(** The loop bound [n] of [resamplePath]. *)
Definition resample_n (pts : list point) (spacing : float) : float :=
  let d := cumulative pts in
  let total := d !!! (length d - 1)%nat in
  Math.max 2 (Math.round (total / spacing)).

Definition resamplePath (pts : list point) (spacing : float) : result (list point) :=
  if (length pts <? 2)%nat then Ok pts
  else
    let d := cumulative pts in
    let total := d !!! (length d - 1)%nat in
    let n := Math.max 2 (Math.round (total / spacing)) in
    match iterations_upto n with
    | Some cnt => for_push (sample pts d n total) (seq 0 cnt)
    | None => Diverges
    end.

(** One round of [smoothPath]'s outer loop: [cur] to [nxt]. *)
Definition corner_cut (cur : list point) : list point :=
  let nxt := [cur !!! 0%nat] in
  let nxt :=
    fold_left
      (fun nxt i =>
         let p0 := cur !!! i in
         let p1 := cur !!! (i + 1)%nat in
         let q := Point (0.75 * p0.(x) + 0.25 * p1.(x)) (0.75 * p0.(y) + 0.25 * p1.(y)) in
         let r := Point (0.25 * p0.(x) + 0.75 * p1.(x)) (0.25 * p0.(y) + 0.75 * p1.(y)) in
         nxt ++ [q; r])
      (seq 0 (length cur - 1)) nxt in
  nxt ++ [cur !!! (length cur - 1)%nat].

Definition smoothPath (pts : list point) (iters : nat) : list point :=
  if (length pts <? 3)%nat then pts else Nat.iter iters corner_cut pts.

(** ** Curvature *)

(** The body of [computeCurvature]'s loop for the index [i]. *)
Definition curvature_at (pts : list point) (i : nat) : curvature :=
  let n := length pts in
  let p0 := pts !!! ((i + n - 1) mod n)%nat in
  let p1 := pts !!! i in
  let p2 := pts !!! ((i + 1) mod n)%nat in
  let dx1 := p1.(x) - p0.(x) in
  let dy1 := p1.(y) - p0.(y) in
  let dx2 := p2.(x) - p1.(x) in
  let dy2 := p2.(y) - p1.(y) in
  let cross := dx1 * dy2 - dy1 * dx2 in
  let len1 := hypot dx1 dy1 in
  let len2 := hypot dx2 dy2 in
  let denom := JS.or (len1 * len2 * (len1 + len2)) 1 in
  let k := cross / denom in
  let tx := (dx1 + dx2) / 2 in
  let ty := (dy1 + dy2) / 2 in
  let tlen := JS.or (hypot tx ty) 1 in
  Curvature k (tx / tlen) (ty / tlen).

Definition computeCurvature (pts : list point) : list curvature :=
  map (curvature_at pts) (seq 0 (length pts)).

(** ** Vehicle dynamics simulation (forward-backward) *)

(** [dist]: the length of every segment in metres, the last one closing
    the loop. *)
Definition lap_dist (px2m : float) (path : list point) : list float :=
  let n := length path in
  let dist := replicate n 0 in
  let dist :=
    fold_left
      (fun dist i =>
         <[ i := hypot ((path !!! (i + 1)%nat).(x) - (path !!! i).(x))
                       ((path !!! (i + 1)%nat).(y) - (path !!! i).(y)) * px2m ]> dist)
      (seq 0 (n - 1)) dist in
  <[ (n - 1)%nat := hypot ((path !!! 0%nat).(x) - (path !!! (n - 1)%nat).(x))
                          ((path !!! 0%nat).(y) - (path !!! (n - 1)%nat).(y)) * px2m ]> dist.

(** [curv]: the curvature magnitude of every sample in 1/m. *)
Definition lap_curv (px2m : float) (path : list point) : list float :=
  map (fun c => Math.abs c.(kappa) / px2m) (computeCurvature path).

(** The lateral-grip limit of one sample, before it is capped. *)
Definition grip_limit (mu g top k : float) : float :=
  if 1e-8 <? k then Math.sqrt (Math.max 0.5 (mu * g / k)) else top.

(** [speedLimit], after the loop that caps it at [options.vTop]. *)
Definition lap_speedLimit (mu g top : float) (curv : list float) : list float :=
  let speedLimit := map (grip_limit mu g top) curv in
  fold_left
    (fun speedLimit i => <[ i := Math.min (speedLimit !!! i) top ]> speedLimit)
    (seq 0 (length curv)) speedLimit.

(** [v] after the forward pass. *)
Definition forward_pass (options : physics) (speedLimit dist : list float) : list float :=
  let n := length speedLimit in
  let v := replicate n 0 in
  let v := <[ 0%nat := Math.min (speedLimit !!! 0%nat) options.(vTop) ]> v in
  fold_left
    (fun v i =>
       let a_forward :=
         Math.min (options.(enginePower) / Math.max 1 (options.(enginePower) / 1e3)) 3.5 in
       let vmax :=
         Math.sqrt (v !!! (i - 1)%nat * v !!! (i - 1)%nat
                    + 2 * a_forward * dist !!! (i - 1)%nat) in
       <[ i := Math.min3 (speedLimit !!! i) vmax options.(vTop) ]> v)
    (seq 1 (n - 1)) v.

(** The body of the braking loop for the index [i]. *)
Definition brake_at (options : physics) (dist : list float) (v : list float) (i : nat)
  : list float :=
  let brake := options.(maxBrakeAccel) in
  let d := dist !!! i in
  let v_allow := Math.sqrt (v !!! (i + 1)%nat * v !!! (i + 1)%nat + 2 * brake * d) in
  if v_allow <? v !!! i then <[ i := Math.max 0 v_allow ]> v else v.

(** One round [for(let i=n-2;i>=0;i--)] of the backward pass. *)
Definition brake_round (options : physics) (dist : list float) (v : list float)
  : list float :=
  fold_left (brake_at options dist) (rev (seq 0 (length v - 1))) v.

(** [v] after the three rounds of the backward pass. *)
Definition backward_pass (options : physics) (dist : list float) (v : list float)
  : list float :=
  Nat.iter 3 (brake_round options dist) v.

(** [totalT] and [segV] after the loop that computes the times. *)
Definition lap_times (dist v : list float) : float * list float :=
  fold_left
    (fun '(totalT, segV) i =>
       let vi := v !!! i in
       let d := dist !!! i in
       let ti := d / Math.max 0.1 vi in
       (totalT + ti, segV ++ [vi]))
    (seq 0 (length v)) (0, []).

(** [simulateLap(path, options)].  The scale [pxToMeter] and the grip
    [tyreMu] are read from the component's state [st], the other
    parameters from [options]; [None] is the source's [null]. *)
Definition simulateLap (st : physics) (path : list point) (options : physics)
  : option lap :=
  if (length path <? 2)%nat then None
  else
    let g := 9.81 in
    let px2m := st.(pxToMeter) in
    let dist := lap_dist px2m path in
    let curv := lap_curv px2m path in
    let speedLimit := lap_speedLimit st.(tyreMu) g options.(vTop) curv in
    let v := forward_pass options speedLimit dist in
    let v := backward_pass options dist v in
    let '(totalT, segV) := lap_times dist v in
    Some (Lap totalT segV dist speedLimit).

End Geometry.

(** The reference [Math.hypot]: the special cases ECMAScript fixes (an
    infinite argument gives [+infinity] even next to NaN), and the square
    root of the sum of squares otherwise. *)
Definition hypot_ref (a b : float) : float :=
  if PrimFloat.is_infinity a || PrimFloat.is_infinity b then infinity
  else Math.sqrt (a * a + b * b).

(** ** Racing-line optimizer (hill-climb shifting along normals) *)

(** [{nx, ny}]: the unit normal of a sample. *)
Record normal : Type := Normal { nx : float; ny : float }.
#[global] Instance normal_inhabited : Inhabited normal := populate (Normal nan nan).

(** [{min, max}]: the signed offsets a sample may take along its normal. *)
Module Bound.
Record t : Type := Make { min : float; max : float }.
End Bound.

(** The array element a number [f] selects as a property key: an integer
    from [0] on, of either zero sign; every other key names no element. *)
Definition array_index (f : float) : option nat :=
  match JS.floorZ f with
  | Some z => if (Math.floor f =? f) && (0 <=? z)%Z then Some (Z.to_nat z) else None
  | None => None
  end.

(** [l[f]], [None] standing for [undefined]. *)
Definition element {A : Type} (l : list A) (f : float) : option A :=
  match array_index f with
  | Some i => l !! i
  | None => None
  end.

(** The local variables of the hill-climb that outlive one try.  The
    component's [racingLine] is [candidate] and its [lapTime] is [bestTime]
    from the baseline on, since both are set wherever the locals are;
    [lapTimes] lists every value passed to [setLapTime], oldest first. *)
Record search : Type := SearchState {
  candidate : list point;
  bestTime : float;
  bestSim : lap;
  lapTimes : list float
}.

(** How the hill-climb ends: it returns, or a [TypeError] leaves the
    component in the state reached so far. *)
Inductive outcome : Type :=
  | Returned (s : search)
  | Threw (s : search).

Definition state_of (o : outcome) : search :=
  match o with
  | Returned s => s
  | Threw s => s
  end.

(** How a call of [optimizeRacingLine] ends, short of an exception in the
    corridor stage. *)
Inductive optimized : Type :=
  | Refused                    (* alert('Compute centerline first') *)
  | NoBaseline                 (* simulateLap returned null for the seed *)
  | Climbed (o : outcome).

Section Optimizer.

Variable hypot : float -> float -> float.

(** [random k] is what the [k]-th call of [Math.random()] returns. *)
Variable random : nat -> float.

(** [center], without the [left] and [right] fields nothing reads. *)
Definition midpoints (left right : list point) : list point :=
  let n := Nat.min (length left) (length right) in
  map (fun i => Point (((left !!! i).(x) + (right !!! i).(x)) / 2)
                      (((left !!! i).(y) + (right !!! i).(y)) / 2))
      (seq 0 n).

(** The body of the loop that precomputes [normals]. *)
Definition normal_at (candidate : list point) (i : nat) : normal :=
  let p1 := candidate !!! ((i + 1) mod length candidate)%nat in
  let p0 := candidate !!! ((i + length candidate - 1) mod length candidate)%nat in
  let tx := p1.(x) - p0.(x) in
  let ty := p1.(y) - p0.(y) in
  let len := JS.or (hypot tx ty) 1 in
  Normal (- ty / len) (tx / len).

Definition normals_of (candidate : list point) : list normal :=
  map (normal_at candidate) (seq 0 (length candidate)).

(** The signed projection of [p - c] onto the normal [nm]. *)
Definition projection (p c : point) (nm : normal) : float :=
  (p.(x) - c.(x)) * nm.(nx) + (p.(y) - c.(y)) * nm.(ny).

(** The edge point paired with sample [i]: [edge[Math.round(i*edge.length/candidate.length)]]. *)
Definition paired (edge : list point) (size i : nat) : option point :=
  element edge (Math.round (JS.Num i * JS.Num (length edge) / JS.Num size)).

(** The body of the loop that fills [allowed]. *)
Definition allowed_at (left right candidate : list point) (normals : list normal)
    (i : nat) : result Bound.t :=
  let c := candidate !!! i in
  let nm := normals !!! i in
  match paired left (length candidate) i, paired right (length candidate) i with
  | Some lp, Some rp =>
      let dl := projection lp c nm in
      let dr := projection rp c nm in
      Ok (Bound.Make (Math.min dl dr) (Math.max dl dr))
  | _, _ => TypeError
  end.

(** The corridor [allowed] of a candidate between two resampled edges. *)
Definition corridor (left right candidate : list point) : result (list Bound.t) :=
  for_push (allowed_at left right candidate (normals_of candidate))
           (seq 0 (length candidate)).

Section Climb.

(** The component's physics state, which is also the [options] of every
    [simulateLap] call here. *)
Variable st : physics.
Variable normals : list normal.
Variable allowed : list Bound.t.
Variable iterations : nat.

(** [candidate.map((p,idx)=> idx===i ? shifted : copy)]. *)
Definition shift (candidate : list point) (i : nat) (step : float)
  : result (list point) :=
  for_push
    (fun idx =>
       let p := candidate !!! idx in
       if (idx =? i)%nat then
         match normals !! idx with
         | Some nm => Ok (Point (p.(x) + nm.(nx) * step) (p.(y) + nm.(ny) * step))
         | None => TypeError
         end
       else Ok (Point p.(x) p.(y)))
    (seq 0 (length candidate)).

(** One try of iteration [it], drawing [random k] and [random (k+1)]:
    the state after it and whether it improved the lap time. *)
Definition attempt (it k : nat) (s : search) : result (search * bool) :=
  let f := Math.floor (random k * JS.Num (length s.(candidate))) in
  match array_index f with
  | None => TypeError
  | Some i =>
      match allowed !! i with
      | None => TypeError
      | Some a =>
          let range := Math.min (a.(Bound.max) - a.(Bound.min)) 60 in
          let step :=
            (random (k + 1)%nat * 2 - 1) * range
            * (0.08 + 0.92 * (1 - JS.Num it / JS.Num iterations)) in
          newCandidate ← shift s.(candidate) i step;
          let sm := smoothPath newCandidate 2 in
          match simulateLap hypot st sm st with
          | Some sim =>
              if sim.(time) <? s.(bestTime)
              then Ok (SearchState sm sim.(time) sim (s.(lapTimes) ++ [sim.(time)]), true)
              else Ok (s, false)
          | None => Ok (s, false)
          end
      end
  end.

(** The [tries] of iteration [it], from try [t] on. *)
Fixpoint tries (it t left : nat) (s : search) (improved : bool)
  : outcome * bool :=
  match left with
  | O => (Returned s, improved)
  | S left' =>
      match attempt it (2 * (30 * it + t))%nat s with
      | Ok (s', better) => tries it (S t) left' s' (improved || better)
      | _ => (Threw s, improved)
      end
  end.

(** The loop [for(let it=0; it<iterations; it++)] from [it] on, with
    [left = iterations - it] rounds to go. *)
Fixpoint climb (it left : nat) (s : search) : outcome :=
  match left with
  | O => Returned s
  | S left' =>
      match tries it 0 30 s false with
      | (Returned s', improved) =>
          if negb improved && (30 <? it)%nat then Returned s' (* early stop *)
          else climb (S it) left' s'
      | (Threw s', _) => Threw s'
      end
  end.

(** From the baseline simulation to the last [setLapTime]. *)
Definition hill_climb (seed : list point) : optimized :=
  match simulateLap hypot st seed st with
  | None => NoBaseline
  | Some sim0 =>
      let s := SearchState seed sim0.(time) sim0 [sim0.(time)] in
      match climb 0 iterations s with
      | Returned s' =>
          Climbed (Returned (SearchState s'.(candidate) s'.(bestTime) s'.(bestSim)
                                    (s'.(lapTimes) ++ [s'.(bestTime)])))
      | Threw s' => Climbed (Threw s')
      end
  end.

End Climb.

(** [computeCenterlineFromEdges()]: the [centerline] it sets, which is also
    the first [racingLine]; [None] when it only alerts 'Draw both edges
    first'. *)
Definition computeCenterlineFromEdges (leftPoints rightPoints : list point)
  : result (option (list point)) :=
  if (length leftPoints <? 5)%nat || (length rightPoints <? 5)%nat then Ok None
  else
    left ← resamplePath hypot leftPoints 3;
    right ← resamplePath hypot rightPoints 3;
    let center := midpoints left right in
    let sm := smoothPath center 4 in
    Ok (Some sm).

(** [optimizeRacingLine(iterations)] in a component whose state holds
    [leftPoints], [rightPoints], [centerline] and the physics [st]. *)
Definition optimizeRacingLine (leftPoints rightPoints centerline : list point)
    (st : physics) (iterations : nat) : result optimized :=
  if (length centerline <? 5)%nat then Ok Refused
  else
    left ← resamplePath hypot leftPoints 3;
    right ← resamplePath hypot rightPoints 3;
    let center := midpoints left right in
    let path := smoothPath center 3 in
    let candidate := path in
    let normals := normals_of candidate in
    allowed ← corridor left right candidate;
    Ok (hill_climb st normals allowed iterations candidate).

End Optimizer.

(** * The component: its state and its input handlers

    The [useState] cells of [AdvancedGoKartRacingLineFinder] and the handlers
    that the canvas, the drawing-mode buttons, the Clear and Auto-trace
    buttons, the file input and the number inputs run.  A handler reads the
    cells of the render it was created in and queues its updates, and the
    component renders again before the next event, so one event takes one
    state to the next.

    These are all the handlers that write [leftPoints], [rightPoints],
    [isDrawing], [mode], [calibrationPoints], [pxToMeter], [imageURL] or a
    number field.  The remaining buttons (Compute Centerline, Optimize Line,
    Simulate Lap and the three exports) write [centerline], [racingLine],
    [lapTime], [optimizing] and [optProgress] only, and are not events
    here. *)

(** The drawing mode: ['left'] or ['right']. *)
Inductive side := LeftEdge | RightEdge.

(** The state cells.  [params] holds [pxToMeter], [tyreMu], [maxBrakeAccel],
    [enginePower] and [vTop]; [lapTime] and [imageURL] are [null] at first. *)
Record component := Component {
  leftPoints : list point;
  rightPoints : list point;
  centerline : list point;
  racingLine : list point;
  isDrawing : bool;
  mode : side;
  calibrationPoints : list point;
  kartMass : float;
  params : physics;
  optimizing : bool;
  optProgress : float;
  optIterations : float;
  lapTime : option float;
  imageURL : option String.string }.

(** The component as it is mounted. *)
Definition mounted : component :=
  {| leftPoints := []; rightPoints := []; centerline := []; racingLine := [];
     isDrawing := false; mode := LeftEdge; calibrationPoints := [];
     kartMass := 160;
     params := {| pxToMeter := 0.2; tyreMu := 1.6; maxBrakeAccel := 7.5;
                  enginePower := 8500; vTop := 22 |};
     optimizing := false; optProgress := 0; optIterations := 300;
     lapTime := None; imageURL := None |}.

(** The setters, each given React's updater function. *)
Definition setLeftPoints (f : list point -> list point) (c : component) : component :=
  let 'Component l r ce ra dr mo ca ma pa og op oi la im := c in
  Component (f l) r ce ra dr mo ca ma pa og op oi la im.

Definition setRightPoints (f : list point -> list point) (c : component) : component :=
  let 'Component l r ce ra dr mo ca ma pa og op oi la im := c in
  Component l (f r) ce ra dr mo ca ma pa og op oi la im.

Definition setCenterline (v : list point) (c : component) : component :=
  let 'Component l r ce ra dr mo ca ma pa og op oi la im := c in
  Component l r v ra dr mo ca ma pa og op oi la im.

Definition setRacingLine (v : list point) (c : component) : component :=
  let 'Component l r ce ra dr mo ca ma pa og op oi la im := c in
  Component l r ce v dr mo ca ma pa og op oi la im.

Definition setIsDrawing (v : bool) (c : component) : component :=
  let 'Component l r ce ra dr mo ca ma pa og op oi la im := c in
  Component l r ce ra v mo ca ma pa og op oi la im.

Definition setMode (v : side) (c : component) : component :=
  let 'Component l r ce ra dr mo ca ma pa og op oi la im := c in
  Component l r ce ra dr v ca ma pa og op oi la im.

Definition setCalibrationPoints (f : list point -> list point) (c : component)
  : component :=
  let 'Component l r ce ra dr mo ca ma pa og op oi la im := c in
  Component l r ce ra dr mo (f ca) ma pa og op oi la im.

Definition setKartMass (v : float) (c : component) : component :=
  let 'Component l r ce ra dr mo ca ma pa og op oi la im := c in
  Component l r ce ra dr mo ca v pa og op oi la im.

Definition setParams (f : physics -> physics) (c : component) : component :=
  let 'Component l r ce ra dr mo ca ma pa og op oi la im := c in
  Component l r ce ra dr mo ca ma (f pa) og op oi la im.

Definition setPxToMeter (v : float) : component -> component :=
  setParams (fun p => Physics v p.(tyreMu) p.(maxBrakeAccel) p.(enginePower) p.(vTop)).

Definition setTyreMu (v : float) : component -> component :=
  setParams (fun p => Physics p.(pxToMeter) v p.(maxBrakeAccel) p.(enginePower) p.(vTop)).

Definition setMaxBrakeAccel (v : float) : component -> component :=
  setParams (fun p => Physics p.(pxToMeter) p.(tyreMu) v p.(enginePower) p.(vTop)).

Definition setEnginePower (v : float) : component -> component :=
  setParams (fun p => Physics p.(pxToMeter) p.(tyreMu) p.(maxBrakeAccel) v p.(vTop)).

Definition setVTop (v : float) : component -> component :=
  setParams (fun p => Physics p.(pxToMeter) p.(tyreMu) p.(maxBrakeAccel) p.(enginePower) v).

Definition setOptIterations (v : float) (c : component) : component :=
  let 'Component l r ce ra dr mo ca ma pa og op oi la im := c in
  Component l r ce ra dr mo ca ma pa og op v la im.

Definition setLapTime (v : option float) (c : component) : component :=
  let 'Component l r ce ra dr mo ca ma pa og op oi la im := c in
  Component l r ce ra dr mo ca ma pa og op oi v im.

Definition setImageURL (v : option String.string) (c : component) : component :=
  let 'Component l r ce ra dr mo ca ma pa og op oi la im := c in
  Component l r ce ra dr mo ca ma pa og op oi la v.

(** What a handler reads of a mouse event: the pointer, the Shift key, and
    the corner of the canvas as [getBoundingClientRect()] gives it then. *)
Record mouse := Mouse {
  clientX : float;
  clientY : float;
  shiftKey : bool;
  rectLeft : float;
  rectTop : float }.

(** [toCanvasCoords(e)] *)
Definition toCanvasCoords (e : mouse) : point :=
  {| x := e.(clientX) - e.(rectLeft); y := e.(clientY) - e.(rectTop) |}.

(** The point goes to the edge of the current mode. *)
Definition add_to_edge (p : point) (c : component) : component :=
  match c.(mode) with
  | LeftEdge => setLeftPoints (fun prev => prev ++ [p]) c
  | RightEdge => setRightPoints (fun prev => prev ++ [p]) c
  end.

(** [handleMouseDown(e)] *)
Definition handleMouseDown (e : mouse) (c : component) : component :=
  let p := toCanvasCoords e in
  add_to_edge p (setIsDrawing true c).

(** [handleMouseMove(e)] *)
Definition handleMouseMove (e : mouse) (c : component) : component :=
  if negb c.(isDrawing) then c
  else
    let p := toCanvasCoords e in
    add_to_edge p c.

(** [handleMouseUp()], which is also what the canvas does when the pointer
    leaves it. *)
Definition handleMouseUp (c : component) : component := setIsDrawing false c.

(** [clearAll()] *)
Definition clearAll (c : component) : component :=
  setImageURL None
    (setLapTime None
       (setRacingLine []
          (setCenterline [] (setRightPoints (fun _ => []) (setLeftPoints (fun _ => []) c))))).

(** The end of [autoTraceEdges()]: [setLeftPoints(l2); setRightPoints(r2)],
    where [l2] and [r2] are the two arrays the handler has extracted from the
    pixels of the canvas.  The image processing that builds them is not
    modelled; they are given with the click. *)
Definition setTracedEdges (l2 r2 : list point) (c : component) : component :=
  setRightPoints (fun _ => r2) (setLeftPoints (fun _ => l2) c).

(** [onImageUpload(e)]; [url] is the object URL of the chosen file, [None]
    when no file was chosen. *)
Definition onImageUpload (url : option String.string) (c : component) : component :=
  match url with
  | None => c
  | Some u => setImageURL (Some u) c
  end.

(** The number inputs, each given what [parseFloat] (for the iterations,
    [parseInt]) made of the text. *)
Inductive field := Mass | Power | TopSpeed | Brake | Mu | Iterations.

Definition onChange (f : field) (parsed : float) (c : component) : component :=
  match f with
  | Mass => setKartMass (JS.or parsed c.(kartMass)) c
  | Power => setEnginePower (JS.or parsed c.(params).(enginePower)) c
  | TopSpeed => setVTop (JS.or parsed c.(params).(vTop)) c
  | Brake => setMaxBrakeAccel (JS.or parsed c.(params).(maxBrakeAccel)) c
  | Mu => setTyreMu (JS.or parsed c.(params).(tyreMu)) c
  | Iterations => setOptIterations (JS.or parsed c.(optIterations)) c
  end.

Section Calibration.

Variable hypot : float -> float -> float.

(** [calibrateAddPoint(e)].  [known] is the answer to the prompt as the
    handler uses it: [None] when the prompt was cancelled or left empty,
    otherwise what [parseFloat] made of the text. *)
Definition calibrateAddPoint (e : mouse) (known : option float) (c : component)
  : component :=
  let p := toCanvasCoords e in
  let c1 :=
    if (length c.(calibrationPoints) <? 2)%nat
    then setCalibrationPoints (fun prev => prev ++ [p]) c
    else c in
  if (length c.(calibrationPoints) =? 1)%nat then
    let px := distance hypot (c.(calibrationPoints) !!! 0%nat) p in
    match known with
    | Some val =>
        if negb (PrimFloat.is_nan val) && (0 <? val)
        then setCalibrationPoints (fun _ => []) (setPxToMeter (val / px) c1)
        else c1
    | None => c1
    end
  else c1.

(** What the user does. *)
Inductive event :=
  | CanvasMouseDown (e : mouse) (known : option float)
  | CanvasMouseMove (e : mouse)
  | CanvasMouseUp
  | CanvasMouseLeave
  | ClickDrawMode (m : side)
  | ClickClear
  | ClickAutoTrace (l2 r2 : list point)
  | ChooseImage (url : option String.string)
  | ChangeNumber (f : field) (parsed : float).

(** The handler the JSX binds to each event. *)
Definition handle (c : component) (ev : event) : component :=
  match ev with
  | CanvasMouseDown e known =>
      if e.(shiftKey) then calibrateAddPoint e known c else handleMouseDown e c
  | CanvasMouseMove e => handleMouseMove e c
  | CanvasMouseUp => handleMouseUp c
  | CanvasMouseLeave => setIsDrawing false c
  | ClickDrawMode m => setMode m c
  | ClickClear => clearAll c
  | ClickAutoTrace l2 r2 => setTracedEdges l2 r2 c
  | ChooseImage url => onImageUpload url c
  | ChangeNumber f parsed => onChange f parsed c
  end.

(** A session: the events in the order they happen. *)
Definition session (c : component) (evs : list event) : component :=
  fold_left handle evs c.

End Calibration.

(** * Specification-side definitions *)

#[local] Close Scope float_scope.

(** ** The order on numbers

    The comparisons of binary64 are read through their specification
    [SFcompare]: away from NaN it is the lexicographic order on a key made
    of the class, the exponent and the mantissa. *)

Module Order.

#[local] Open Scope Z_scope.

Definition key (f : spec_float) : Z * Z * Z :=
  match f with
  | S754_nan => (0, 0, 0)
  | S754_zero _ => (0, 0, 0)
  | S754_infinity true => (-2, 0, 0)
  | S754_infinity false => (2, 0, 0)
  | S754_finite true m e => (-1, - e, Zneg m)
  | S754_finite false m e => (1, e, Zpos m)
  end.

Definition is_nan (f : spec_float) : bool :=
  match f with S754_nan => true | _ => false end.

Definition klt (a b : Z * Z * Z) : Prop :=
  a.1.1 < b.1.1 \/
  (a.1.1 = b.1.1 /\ (a.1.2 < b.1.2 \/ (a.1.2 = b.1.2 /\ a.2 < b.2))).

Definition keq (a b : Z * Z * Z) : Prop :=
  a.1.1 = b.1.1 /\ a.1.2 = b.1.2 /\ a.2 = b.2.

End Order.

(** The key and the NaN test of a number. *)
Definition fkey (a : float) : Z * Z * Z := Order.key (Prim2SF a).
Definition fnan (a : float) : bool := Order.is_nan (Prim2SF a).

(** The NaN test as an integer, for linear arithmetic: 1 for NaN, else 0. *)
Definition nanz (a : float) : Z := if fnan a then 1%Z else 0%Z.

(** ** Reading the lap simulator *)

(** [totalT] after the first [k] rounds of the loop that computes the times. *)
Definition time_upto (dist v : list float) (k : nat) : float :=
  (fold_left
     (fun '(totalT, segV) i =>
        (totalT + dist !!! i / Math.max 0.1 (v !!! i), segV ++ [v !!! i])%float)
     (seq 0 k) (0%float, [])).1.

(** The speed limit [simulateLap] gives a sample of curvature magnitude [k]
    (in 1/m): the grip limit above the threshold [1e-8], the top speed at or
    below it, and never more than the top speed. *)
Definition capped_limit (mu top k : float) : float :=
  Math.min
    (if (1e-8 <? k)%float
     then Math.sqrt (Math.max 0.5 (mu * 9.81 / k)%float)
     else top)
    top.

(** A speed of the profile is in range when it is NaN or lies between zero
    and the top speed. *)
Definition speed_ok (top s : float) : Prop :=
  PrimFloat.is_nan s = true \/ ((0 <=? s)%float = true /\ (s <=? top)%float = true).

(** The speed from which braking at [brake] over the distance [d] reaches
    the speed [next]. *)
Definition brake_reach (brake d next : float) : float :=
  Math.sqrt (next * next + 2 * brake * d)%float.

(** The speed limit as the specification words it: the grip limit whenever
    the curvature magnitude is not zero, capped at the top speed. *)
Definition limit_as_specified (mu top k : float) : float :=
  Math.min
    (if (k =? 0)%float
     then top
     else Math.sqrt (Math.max 0.5 (mu * 9.81 / k)%float))
    top.

(** A number is a valid lower bound of a speed when it is NaN or not below
    zero. *)
Definition nonneg_or_nan (s : float) : Prop :=
  PrimFloat.is_nan s = true \/ (0 <=? s)%float = true.

(** ** Reading the optimizer *)

(** [a] is not above [b]: it is the same number or a smaller one.  On
    numbers other than NaN this is [a <= b]; a NaN is not above itself,
    as a lap time that stays NaN does not increase. *)
Definition not_above (a b : float) : Prop := a = b \/ (a <? b)%float = true.

(** Every lap time of the list is not above the one before it. *)
Fixpoint nonincreasing (ts : list float) : Prop :=
  match ts with
  | t :: ((t' :: _) as rest) => not_above t' t /\ nonincreasing rest
  | _ => True
  end.

(** What the hill-climb keeps true of its state: the best lap is the
    simulation of the candidate, and the lap times published so far start
    at [t0], never increase and end at the best time. *)
Record tracked (hypot : float -> float -> float) (st : physics) (t0 : float)
    (s : search) : Prop := Tracked {
  tracked_sim : simulateLap hypot st s.(candidate) st = Some s.(bestSim);
  tracked_time : s.(bestSim).(time) = s.(bestTime);
  tracked_first : head s.(lapTimes) = Some t0;
  tracked_last : last s.(lapTimes) = Some s.(bestTime);
  tracked_order : nonincreasing s.(lapTimes);
  tracked_best : not_above s.(bestTime) t0
}.

(** ** Reading the resampler *)

(** The point at the fraction [tt] of the way from [a] to [b]. *)
Definition lerp (a b : point) (tt : float) : point :=
  Point (a.(x) + (b.(x) - a.(x)) * tt)%float (a.(y) + (b.(y) - a.(y)) * tt)%float.

(** The total arc length [resamplePath] measures along [pts]. *)
Definition arc_length (hypot : float -> float -> float) (pts : list point) : float :=
  cumulative hypot pts !!! (length (cumulative hypot pts) - 1).

(** The arc length at which [resamplePath] places its [i]-th point. *)
Definition arc_at (hypot : float -> float -> float) (pts : list point)
    (spacing : float) (i : nat) : float :=
  (JS.Num i / resample_n hypot pts spacing * arc_length hypot pts)%float.

(** The segment the cumulative-distance lookup finds for the arc length
    [t], and the fraction of that segment at which [t] lies. *)
Definition segment_of (hypot : float -> float -> float) (pts : list point)
    (t : float) : nat :=
  seek (tail (cumulative hypot pts)) t 0.

Definition fraction_of (hypot : float -> float -> float) (pts : list point)
    (t : float) : float :=
  let d := cumulative hypot pts in
  let j := segment_of hypot pts t in
  ((t - d !!! j) / JS.or (d !!! (j + 1)%nat - d !!! j) 1)%float.

(** [d] is the table of cumulative distances along [pts]: it has one entry
    per point, starts at 0, and each further entry adds the length of one
    more segment. *)
Definition cumulative_table (hypot : float -> float -> float) (pts : list point)
    (d : list float) : Prop :=
  length d = length pts /\
  d !! 0 = Some 0%float /\
  forall k, k + 1 < length pts ->
            d !! (k + 1)
            = Some (d !!! k + distance hypot (pts !!! (k + 1)%nat) (pts !!! k))%float.

(** The total arc length of a table, the number of parts [resamplePath]
    cuts it into for a spacing, and the arc length of its [i]-th point. *)
Definition total_of (d : list float) : float := d !!! (length d - 1).

Definition parts_of (d : list float) (spacing : float) : float :=
  Math.max 2 (Math.round (total_of d / spacing)%float).

Definition arc_of (d : list float) (spacing : float) (i : nat) : float :=
  (JS.Num i / parts_of d spacing * total_of d)%float.

(** Segment [j], from point [j] to point [j + 1], is the first segment
    whose end is not before the arc length [t]: every earlier segment ends
    before [t], so that [t] is past the start of segment [j] unless [j] is
    the first. *)
Definition first_reaching (d : list float) (t : float) (j : nat) : Prop :=
  j + 1 < length d /\
  (forall k, k < j -> (d !!! (k + 1)%nat <? t)%float = true) /\
  (d !!! (j + 1)%nat <? t)%float = false.

(** The fraction of segment [j] at which the arc length [t] lies; a
    segment of length zero or NaN counts as of length 1. *)
Definition fraction_on (d : list float) (t : float) (j : nat) : float :=
  ((t - d !!! j) / JS.or (d !!! (j + 1)%nat - d !!! j) 1)%float.

(** ** Reading the curvature estimator *)

(** [Number.isFinite]: neither NaN nor an infinity. *)
Definition isFinite (a : float) : bool :=
  match Prim2SF a with
  | S754_zero _ | S754_finite _ _ _ => true
  | _ => false
  end.

(** The local variables of [computeCurvature]'s loop body at index [i]:
    the incoming and outgoing segment vectors, their cross product, the two
    divisors and the tangent before it is normalised. *)
Section CurvatureLocals.

Variable hypot : float -> float -> float.
Variable pts : list point.
Variable i : nat.

#[local] Open Scope float_scope.

Definition prev_of : point := pts !!! ((i + length pts - 1) mod length pts)%nat.
Definition next_of : point := pts !!! ((i + 1) mod length pts)%nat.
Definition dx1_at : float := (pts !!! i).(x) - prev_of.(x).
Definition dy1_at : float := (pts !!! i).(y) - prev_of.(y).
Definition dx2_at : float := next_of.(x) - (pts !!! i).(x).
Definition dy2_at : float := next_of.(y) - (pts !!! i).(y).
Definition cross_at : float := dx1_at * dy2_at - dy1_at * dx2_at.
Definition denom_at : float :=
  let len1 := hypot dx1_at dy1_at in
  let len2 := hypot dx2_at dy2_at in
  JS.or (len1 * len2 * (len1 + len2)) 1.
Definition tlen_at : float :=
  JS.or (hypot ((dx1_at + dx2_at) / 2) ((dy1_at + dy2_at) / 2)) 1.

End CurvatureLocals.

(** Sample [i] of the profile [v] is braked: its speed is not above the
    speed from which braking over its segment reaches the next sample's. *)
Definition braked (options : physics) (dist v : list float) (i : nat) : Prop :=
  (brake_reach options.(maxBrakeAccel) (dist !!! i) (v !!! (i + 1)%nat) <? v !!! i)%float
  = false.

(** The speed [s] respects the limit [limit]: it is NaN or not above it. *)
Definition within_limit (limit s : float) : Prop :=
  PrimFloat.is_nan s = true \/ (s <=? limit)%float = true.

(** ** Reading the result of the lap simulator *)

(** The length in metres of the segment that leaves sample [i] of the
    closed path: it runs to the next sample, and from the last sample back
    to the first. *)
Definition segment_metres (hypot : float -> float -> float) (px2m : float)
    (path : list point) (i : nat) : float :=
  (distance hypot (path !!! ((i + 1) mod length path)%nat) (path !!! i) * px2m)%float.

(** The curvature magnitude at sample [i], in 1/m. *)
Definition curvature_metres (hypot : float -> float -> float) (px2m : float)
    (path : list point) (i : nat) : float :=
  (Math.abs (cross_at path i / denom_at hypot path i) / px2m)%float.

(** The time of one segment: its length over the speed at its start, which
    counts as at least 0.1 m/s. *)
Definition segment_time (d s : float) : float := (d / Math.max 0.1 s)%float.

(** The lap time of a profile: the segment times added up in order. *)
Definition total_time (dist v : list float) : float :=
  fold_left PrimFloat.add (zip_with segment_time dist v) 0%float.

(** After [k] improvements, which publish [k] lap times after the baseline,
    the candidate has [4^k] times the [size] of the seed. *)
Definition grown (size : nat) (s : search) : Prop :=
  1 <= length s.(lapTimes) /\
  length s.(candidate) = size * 4 ^ (length s.(lapTimes) - 1).

(** ** Reading the corridor stage *)

(** The integer [z] as a number. *)
Definition num_of_Z (z : Z) : float := PrimFloat.of_uint63 (Uint63.of_Z z).

(** With an edge of [z] points and a candidate of [8z] samples, the sample
    [8z - 4] is paired with the index [z], one past the edge's last. *)
Definition pairs_past_end (z : Z) : bool :=
  let f := Math.round (num_of_Z (8 * z - 4) * num_of_Z z / num_of_Z (8 * z))%float in
  match JS.floorZ f with
  | Some k => (k =? z)%Z && (Math.floor f =? f)%float
  | None => false
  end.

(** [P] holds of the [count] integers from [lo] on. *)
Fixpoint all_from (P : Z -> bool) (lo : Z) (count : nat) : bool :=
  match count with
  | O => true
  | S c => P lo && all_from P (lo + 1) c
  end.

(** The largest edge, in points, for which the pairing is evaluated. *)
Definition largest_edge : Z := 20000.

(** ** Properties of the component's state and events *)

(** The events that replace the drawn edges: Clear, which empties them, and
    Auto-trace, which sets the traced ones. *)
Definition replaces_edges (ev : event) : bool :=
  match ev with
  | ClickClear | ClickAutoTrace _ _ => true
  | _ => false
  end.

(** An answer to the calibration prompt that sets no scale: the prompt was
    cancelled or left empty, or the text is no number, or the number is not
    above zero. *)
Definition rejected (known : option float) : bool :=
  match known with
  | None => true
  | Some val => PrimFloat.is_nan val || negb (0 <? val)%float
  end.

(** None of the number fields holds zero or NaN. *)
Definition numbers_truthy (c : component) : bool :=
  JS.truthy c.(kartMass) && JS.truthy c.(params).(enginePower)
  && JS.truthy c.(params).(vTop) && JS.truthy c.(params).(maxBrakeAccel)
  && JS.truthy c.(params).(tyreMu) && JS.truthy c.(optIterations).

(** ** Inputs the examples are evaluated on *)

#[local] Open Scope float_scope.

(** A three-point corner. *)
Definition triangle : list point := [Point 0 0; Point 4 0; Point 4 4].

(** The physics the component starts with. *)
Definition default_physics : physics := Physics 0.2 1.6 7.5 8500 22.

#[local] Close Scope float_scope.

#[local] Open Scope float_scope.

(** A track whose last sample lies on a straight that runs into a hairpin
    at the first sample, 2 m ahead; every segment is parallel to an axis. *)
Definition hairpin : list point :=
  [Point 0 0; Point 0 10; Point (-200) 10; Point (-200) 0; Point (-10) 0].

#[local] Close Scope float_scope.

#[local] Open Scope float_scope.

(** A map-scale track: 10^8 m to the pixel and no effective top speed. *)
Definition map_scale_physics : physics := Physics 1e8 1.6 7.5 8500 1e6.

(** A negative engine power, as the component's number field accepts it. *)
Definition negative_power : physics := Physics 0.2 1.6 7.5 (-1) 22.

(** A 400 m straight, out and back. *)
Definition straight : list point := [Point 0 0; Point 2000 0].

#[local] Close Scope float_scope.

#[local] Open Scope float_scope.

(** A 10 px segment, to be resampled every 3 px. *)
Definition segment10 : list point := [Point 0 0; Point 10 0].

(** Two and five points, 3 px apart. *)
Definition uniform2 : list point := [Point 0 0; Point 3 0].
Definition uniform5 : list point :=
  [Point 0 0; Point 3 0; Point 6 0; Point 9 0; Point 12 0].

#[local] Close Scope float_scope.

#[local] Open Scope float_scope.

(** Three points on a line, 10^200 px apart in each coordinate. *)
Definition far_apart : list point :=
  [Point 0 0; Point 1e200 1e200; Point 2e200 2e200].

#[local] Close Scope float_scope.

#[local] Open Scope float_scope.

(** A path that stays at one place for three samples. *)
Definition stalled : list point := [Point 1 1; Point 1 1; Point 1 1; Point 5 1].

#[local] Close Scope float_scope.

#[local] Open Scope float_scope.

(** The two edges of a straight strip 5 px wide, drawn with five points
    each. *)
Definition left_edge : list point := uniform5.
Definition right_edge : list point :=
  [Point 0 5; Point 3 5; Point 6 5; Point 9 5; Point 12 5].

(** A source of random draws that always returns one half. *)
Definition always_half (k : nat) : float := 0.5.

#[local] Close Scope float_scope.

#[local] Open Scope float_scope.

(** An octagon, 300 px across. *)
Definition octagon : list point :=
  [Point 100 0; Point 200 0; Point 300 100; Point 300 200;
   Point 200 300; Point 100 300; Point 0 200; Point 0 100].

#[local] Close Scope float_scope.

(** A Shift+click on the canvas at the pointer position [(a, b)], the canvas
    being at [(8, 8)] in the window. *)
Definition shift_click (a b : float) : mouse :=
  {| clientX := a; clientY := b; shiftKey := true; rectLeft := 8; rectTop := 8 |}.

(** A plain press at the pointer position [(a, b)]. *)
Definition press (a b : float) : mouse :=
  {| clientX := a; clientY := b; shiftKey := false; rectLeft := 8; rectTop := 8 |}.

(** The component after the left edge was drawn with a press, a drag and a
    release, and the right edge started with one press. *)
Definition sketch : component :=
  session hypot_ref mounted
    [CanvasMouseDown (press 20 30) None; CanvasMouseMove (press 21 30); CanvasMouseUp;
     ClickDrawMode RightEdge; CanvasMouseDown (press 20 60) None; CanvasMouseUp].

(** More drawing on a sketch, with a calibration click and a number input
    in between. *)
Definition more_drawing : list event :=
  [CanvasMouseDown (press 30 60) None; CanvasMouseMove (press 31 61); CanvasMouseLeave;
   CanvasMouseMove (press 32 62); CanvasMouseDown (shift_click 50 50) None;
   ChangeNumber TopSpeed 25; ClickDrawMode LeftEdge; CanvasMouseDown (press 22 30) None].

(** A path with a corner: 10 px to the right, then 10 px down. *)
Definition corner : list point := [Point 0 0; Point 10 0; Point 10 10]%float.

(** * Properties *)

(** ** Comparisons *)

Lemma SFcompare_key (a b : spec_float) :
  match SFcompare a b with
  | None => Order.is_nan a = true \/ Order.is_nan b = true
  | Some Lt =>
      Order.is_nan a = false /\ Order.is_nan b = false /\
      Order.klt (Order.key a) (Order.key b)
  | Some Eq =>
      Order.is_nan a = false /\ Order.is_nan b = false /\
      Order.keq (Order.key a) (Order.key b)
  | Some Gt =>
      Order.is_nan a = false /\ Order.is_nan b = false /\
      Order.klt (Order.key b) (Order.key a)
  end.
Proof.
  unfold Order.klt, Order.keq.
  destruct a as [[]|[]| |[] ma ea], b as [[]|[]| |[] mb eb]; cbn; auto;
    try (repeat split; lia);
    change (PosDef.Pos.compare_cont Eq ma mb) with (Pos.compare ma mb);
    destruct (Z.compare_spec ea eb); cbn; try (repeat split; lia);
    destruct (Pos.compare_spec ma mb); cbn; repeat split; lia.
Qed.

#[local] Open Scope float_scope.

Lemma ltb_iff (a b : float) :
  (a <? b) = true <->
  fnan a = false /\ fnan b = false /\ Order.klt (fkey a) (fkey b).
Proof.
  rewrite FloatAxioms.ltb_spec. unfold SFltb, fnan, fkey.
  pose proof (SFcompare_key (Prim2SF a) (Prim2SF b)) as H.
  destruct (SFcompare _ _) as [[]|]; unfold Order.klt, Order.keq in *;
    split; intros; try discriminate; try tauto; exfalso.
  - destruct H as (? & ? & ?); lia.
  - destruct H as (? & ? & ?); lia.
  - destruct H as [H|H]; intuition congruence.
Qed.

Lemma leb_iff (a b : float) :
  (a <=? b) = true <->
  fnan a = false /\ fnan b = false /\
  (Order.klt (fkey a) (fkey b) \/ Order.keq (fkey a) (fkey b)).
Proof.
  rewrite FloatAxioms.leb_spec. unfold SFleb, fnan, fkey.
  pose proof (SFcompare_key (Prim2SF a) (Prim2SF b)) as H.
  destruct (SFcompare _ _) as [[]|]; unfold Order.klt, Order.keq in *;
    split; intros; try discriminate; try tauto; exfalso.
  - destruct H as (? & ? & ?); lia.
  - destruct H as [H|H]; intuition congruence.
Qed.

Lemma is_nan_iff (a : float) : PrimFloat.is_nan a = fnan a.
Proof.
  unfold PrimFloat.is_nan, fnan. rewrite FloatAxioms.eqb_spec. unfold SFeqb.
  pose proof (SFcompare_key (Prim2SF a) (Prim2SF a)) as H.
  destruct (SFcompare _ _) as [[]|]; unfold Order.klt in *; cbn.
  - symmetry; tauto.
  - exfalso; lia.
  - exfalso; lia.
  - destruct H; congruence.
Qed.

Lemma fkey_0 : fkey 0 = (0, 0, 0)%Z.
Proof. reflexivity. Qed.

Lemma fnan_0 : fnan 0 = false.
Proof. reflexivity. Qed.

Lemma nanz_range (a : float) : (0 <= nanz a <= 1)%Z.
Proof. unfold nanz. destruct (fnan a); lia. Qed.

Lemma nanz_0 : nanz 0 = 0%Z.
Proof. reflexivity. Qed.

Lemma nanz_2 : nanz 2 = 0%Z.
Proof. reflexivity. Qed.

Lemma key_2 : fkey 2 = (1, -51, 4503599627370496)%Z.
Proof. reflexivity. Qed.

Lemma is_nan_true_Z (a : float) : PrimFloat.is_nan a = true <-> nanz a = 1%Z.
Proof. rewrite is_nan_iff. unfold nanz. destruct (fnan a); split; (done || lia). Qed.

Lemma is_nan_false_Z (a : float) : PrimFloat.is_nan a = false <-> nanz a = 0%Z.
Proof. rewrite is_nan_iff. unfold nanz. destruct (fnan a); split; (done || lia). Qed.

Lemma ltb_true_Z (a b : float) :
  (a <? b) = true <->
  nanz a = 0%Z /\ nanz b = 0%Z /\ Order.klt (fkey a) (fkey b).
Proof. rewrite ltb_iff. unfold nanz. destruct (fnan a), (fnan b); intuition lia. Qed.

Lemma ltb_false_Z (a b : float) :
  (a <? b) = false <->
  ~ (nanz a = 0%Z /\ nanz b = 0%Z /\ Order.klt (fkey a) (fkey b)).
Proof. rewrite <- ltb_true_Z. symmetry. apply Bool.not_true_iff_false. Qed.

Lemma leb_true_Z (a b : float) :
  (a <=? b) = true <->
  nanz a = 0%Z /\ nanz b = 0%Z /\
  (Order.klt (fkey a) (fkey b) \/ Order.keq (fkey a) (fkey b)).
Proof. rewrite leb_iff. unfold nanz. destruct (fnan a), (fnan b); intuition lia. Qed.

Lemma leb_false_Z (a b : float) :
  (a <=? b) = false <->
  ~ (nanz a = 0%Z /\ nanz b = 0%Z /\
     (Order.klt (fkey a) (fkey b) \/ Order.keq (fkey a) (fkey b))).
Proof. rewrite <- leb_true_Z. symmetry. apply Bool.not_true_iff_false. Qed.

(** Decide a goal about comparisons of numbers from the comparisons among
    the hypotheses: every comparison becomes linear arithmetic on the keys. *)
Ltac float_order :=
  rewrite ?ltb_true_Z, ?ltb_false_Z, ?leb_true_Z, ?leb_false_Z,
    ?is_nan_true_Z, ?is_nan_false_Z in *;
  rewrite ?fkey_0, ?nanz_0, ?key_2, ?nanz_2 in *;
  unfold Order.klt, Order.keq in *;
  repeat match goal with
    | |- context [nanz ?a] =>
        let n := fresh "n" in
        pose proof (nanz_range a); set (n := nanz a) in *; clearbody n
    | H : context [nanz ?a] |- _ =>
        let n := fresh "n" in
        pose proof (nanz_range a); set (n := nanz a) in *; clearbody n
    end;
  repeat match goal with
    | |- context [fkey ?a] =>
        let k := fresh "k" in
        set (k := fkey a) in *; clearbody k; destruct k as [[? ?] ?]
    | H : context [fkey ?a] |- _ =>
        let k := fresh "k" in
        set (k := fkey a) in *; clearbody k; destruct k as [[? ?] ?]
    end;
  cbn [fst snd] in *;
  lia.

(** A rounded result carries the sign it was given, unless it is NaN. *)
Lemma binary_round_aux_sign (sx : bool) (mx ex : Z) (lx : location) :
  match binary_round_aux prec emax sx mx ex lx with
  | S754_nan => True
  | S754_zero s | S754_infinity s | S754_finite s _ _ => s = sx
  end.
Proof.
  unfold binary_round_aux.
  destruct (shr_fexp _ _ _ _ _) as [mrs' e'].
  destruct (shr_fexp _ _ _ _ _) as [mrs'' e''].
  destruct (shr_m mrs''); trivial.
  destruct (_ <=? _)%Z; trivial.
Qed.

(** [Math.sqrt] returns NaN or a number that is not below zero. *)
Lemma sqrt_nonneg (a : float) :
  PrimFloat.is_nan (Math.sqrt a) = true \/ (0 <=? Math.sqrt a) = true.
Proof.
  unfold Math.sqrt. rewrite is_nan_iff, leb_iff, fkey_0, fnan_0.
  unfold fnan, fkey. rewrite FloatAxioms.sqrt_spec. unfold SF64sqrt, SFsqrt.
  destruct (Prim2SF a) as [s|[]| |[] m e]; cbn; auto.
  - right. unfold Order.klt, Order.keq; cbn. intuition lia.
  - right. unfold Order.klt, Order.keq; cbn. intuition lia.
  - destruct (SFsqrt_core_binary _ _ _ _) as [[mz ez] lz].
    pose proof (binary_round_aux_sign false mz ez lz) as H.
    destruct (binary_round_aux _ _ _ _ _ _) as [s|s| |s m' e']; cbn; auto;
      subst; right; unfold Order.klt, Order.keq; cbn; intuition lia.
Qed.

#[local] Close Scope float_scope.

(** ** Array loops *)

Section ArrayLoops.

Context {A : Type}.

(** A loop of in-place updates keeps the length of the array. *)
Lemma fold_insert_length (f : list A -> nat -> A) (idx : list nat) (l : list A) :
  length (fold_left (fun l i => <[ i := f l i ]> l) idx l) = length l.
Proof.
  revert l. induction idx as [|i idx IH]; intros l; cbn; [done|].
  by rewrite IH, length_insert.
Qed.

(** So does any loop whose body does. *)
Lemma fold_length (f : list A -> nat -> list A) (idx : list nat) (l : list A) :
  (forall l i, length (f l i) = length l) ->
  length (fold_left f idx l) = length l.
Proof.
  intros Hf. revert l. induction idx as [|i idx IH]; intros l; cbn; [done|].
  by rewrite IH, Hf.
Qed.

(** A loop that pushes [k] elements per round. *)
Lemma fold_push_length (f : list A -> nat -> list A) (k : nat) (idx : list nat)
    (l : list A) :
  (forall l i, length (f l i) = k) ->
  length (fold_left (fun l i => l ++ f l i) idx l) = length l + k * length idx.
Proof.
  intros Hf. revert l. induction idx as [|i idx IH]; intros l; cbn; [lia|].
  rewrite IH, length_app, Hf. lia.
Qed.

(** An invariant of the whole array that every round keeps. *)
Lemma fold_invariant (P : list A -> Prop) (f : list A -> nat -> list A)
    (idx : list nat) (l : list A) :
  (forall l i, i ∈ idx -> P l -> P (f l i)) ->
  P l -> P (fold_left f idx l).
Proof.
  revert l. induction idx as [|i idx IH]; intros l Hf Hl; cbn; [done|].
  apply IH.
  - intros l' j Hj. apply Hf. by right.
  - apply Hf; [by left|done].
Qed.

(** Reading every index of an array in turn gives the array back. *)
Lemma read_all `{!Inhabited A} (l : list A) :
  map (fun i => l !!! i) (seq 0 (length l)) = l.
Proof.
  apply list_eq. intros i.
  change (map (fun i => l !!! i)) with (fmap (M := list) (fun i => l !!! i)).
  rewrite list_lookup_fmap.
  destruct (decide (i < length l)) as [Hi|Hi].
  - rewrite lookup_seq_lt by done. cbn.
    destruct (lookup_lt_is_Some_2 l i Hi) as [a Ha].
    by rewrite (list_lookup_total_correct l i a Ha), Ha.
  - rewrite lookup_seq_ge by lia. cbn. symmetry. apply lookup_ge_None. lia.
Qed.

End ArrayLoops.

(** ** The path smoother *)

Lemma corner_cut_length (cur : list point) :
  cur <> [] -> length (corner_cut cur) = 2 * length cur.
Proof.
  intros Hne. unfold corner_cut. rewrite length_app.
  rewrite (fold_push_length
             (fun _ i =>
                [Point (0.75 * (cur !!! i).(x) + 0.25 * (cur !!! (i + 1)%nat).(x))%float
                       (0.75 * (cur !!! i).(y) + 0.25 * (cur !!! (i + 1)%nat).(y))%float;
                 Point (0.25 * (cur !!! i).(x) + 0.75 * (cur !!! (i + 1)%nat).(x))%float
                       (0.25 * (cur !!! i).(y) + 0.75 * (cur !!! (i + 1)%nat).(y))%float])
             2); [|done].
  rewrite length_seq. destruct cur; [done|]. cbn. lia.
Qed.

Lemma corner_cut_iter_length (k : nat) (pts : list point) :
  pts <> [] -> length (Nat.iter k corner_cut pts) = length pts * 2 ^ k.
Proof.
  intros Hne. induction k as [|k IH]; simpl; [lia|].
  assert (Nat.iter k corner_cut pts <> []) as Hk.
  { intros E. rewrite E in IH. destruct pts; [done|].
    cbn in IH. pose proof (Nat.pow_nonzero 2 k). lia. }
  rewrite corner_cut_length, IH by done. lia.
Qed.

(** C5, as amended: [k] rounds of smoothing turn a path of [n >= 3] points
    into one of exactly [n * 2^k] points.  Every round keeps both end points
    and puts two new points on each of the [n - 1] segments, which doubles
    the count. *)
Theorem smoothPath_length (pts : list point) (k : nat) :
  3 <= length pts ->
  length (smoothPath pts k) = length pts * 2 ^ k.
Proof.
  intros Hn. unfold smoothPath.
  destruct (Nat.ltb_spec (length pts) 3) as [?|_]; [lia|].
  apply corner_cut_iter_length. destruct pts; [cbn in Hn; lia|done].
Qed.

Lemma smoothPath_length_witness :
  3 <= length triangle /\ length (smoothPath triangle 2) = length triangle * 2 ^ 2.
Proof. split; [cbn; lia | apply (smoothPath_length triangle 2); cbn; lia]. Defined.

(** C5, as stated, fails for one round on three points: the formula of the
    claim gives 5 points, the smoothed path has 6. *)
Lemma smoothPath_length_counterexample :
  length (smoothPath triangle 1) = 6 /\
  length triangle + (length triangle - 1) * (2 ^ 1 - 1) = 5.
Proof. split; reflexivity. Qed.

(** A loop of pushes keeps the first element of a non-empty array. *)
Lemma fold_push_head {A : Type} (f : list A -> nat -> list A) (idx : list nat)
    (a : A) (l : list A) :
  head (fold_left (fun l i => l ++ f l i) idx (a :: l)) = Some a.
Proof.
  revert l. induction idx as [|i idx IH]; intros l; cbn; [done|]. apply IH.
Qed.

(** One round of corner cutting keeps both end points. *)
Lemma corner_cut_ends (cur : list point) :
  cur <> [] ->
  head (corner_cut cur) = head cur /\ last (corner_cut cur) = last cur.
Proof.
  intros Hne. unfold corner_cut. split.
  - destruct cur as [|p cur]; [done|].
    change ((p :: cur) !!! 0) with p.
    match goal with
    | |- head (fold_left ?g ?idx [p] ++ _) = _ =>
        pose proof (fold_push_head
                      (fun _ i =>
                         [Point (0.75 * ((p :: cur) !!! i).(x)
                                 + 0.25 * ((p :: cur) !!! (i + 1)%nat).(x))%float
                                (0.75 * ((p :: cur) !!! i).(y)
                                 + 0.25 * ((p :: cur) !!! (i + 1)%nat).(y))%float;
                          Point (0.25 * ((p :: cur) !!! i).(x)
                                 + 0.75 * ((p :: cur) !!! (i + 1)%nat).(x))%float
                                (0.25 * ((p :: cur) !!! i).(y)
                                 + 0.75 * ((p :: cur) !!! (i + 1)%nat).(y))%float])
                      idx p []) as Hh;
        destruct (fold_left g idx [p]) as [|q rest]; [done|exact Hh]
    end.
  - rewrite last_snoc.
    destruct (last cur) as [q|] eqn:E.
    + rewrite last_lookup in E.
      replace (length cur - 1) with (pred (length cur)) by lia.
      by rewrite (list_lookup_total_correct _ _ _ E).
    + apply last_None in E. done.
Qed.

Lemma corner_cut_nonempty (cur : list point) : corner_cut cur <> [].
Proof. unfold corner_cut. by destruct (fold_left _ _ _). Qed.

Lemma corner_cut_iter_ends (k : nat) (pts : list point) :
  pts <> [] ->
  Nat.iter k corner_cut pts <> [] /\
  head (Nat.iter k corner_cut pts) = head pts /\
  last (Nat.iter k corner_cut pts) = last pts.
Proof.
  intros Hne. induction k as [|k (Hk & Hh & Hl)]; simpl; [done|].
  destruct (corner_cut_ends _ Hk) as [Hh' Hl'].
  split; [apply corner_cut_nonempty|]. split; congruence.
Qed.

(** X1: smoothing never moves the end points of a path: after any number
    of rounds the first and the last point are those of the input. *)
Theorem smoothPath_ends (pts : list point) (k : nat) :
  head (smoothPath pts k) = head pts /\ last (smoothPath pts k) = last pts.
Proof.
  unfold smoothPath. destruct (length pts <? 3) eqn:E; [done|].
  apply corner_cut_iter_ends. destruct pts; [done|done].
Qed.

(** X2: smoothing in two goes is smoothing once with the rounds added up:
    [smoothPath(smoothPath(pts, a), b)] is [smoothPath(pts, a + b)]. *)
Theorem smoothPath_twice (pts : list point) (a b : nat) :
  smoothPath (smoothPath pts a) b = smoothPath pts (a + b).
Proof.
  unfold smoothPath at 2 3.
  destruct (Nat.ltb_spec (length pts) 3) as [Hlt|Hge].
  - unfold smoothPath. by destruct (Nat.ltb_spec (length pts) 3); [|lia].
  - assert (pts <> []) as Hne by (destruct pts; [cbn in Hge; lia|done]).
    unfold smoothPath.
    rewrite corner_cut_iter_length by done.
    destruct (Nat.ltb_spec (length pts * 2 ^ a) 3) as [Hlt|_].
    + pose proof (Nat.pow_nonzero 2 a). nia.
    + rewrite (Nat.add_comm a b). symmetry. apply Nat.iter_add.
Qed.

(** ** The lap simulator: shape of the result *)

Section LapShape.

Variable hypot : float -> float -> float.

Lemma computeCurvature_length (pts : list point) :
  length (computeCurvature hypot pts) = length pts.
Proof. unfold computeCurvature. by rewrite length_map, length_seq. Qed.

Lemma lap_dist_length (px2m : float) (path : list point) :
  length (lap_dist hypot px2m path) = length path.
Proof.
  unfold lap_dist. rewrite length_insert.
  rewrite (fold_insert_length
             (fun _ i =>
                (hypot ((path !!! (i + 1)%nat).(x) - (path !!! i).(x))
                       ((path !!! (i + 1)%nat).(y) - (path !!! i).(y)) * px2m)%float)).
  apply length_replicate.
Qed.

Lemma lap_curv_length (px2m : float) (path : list point) :
  length (lap_curv hypot px2m path) = length path.
Proof. unfold lap_curv. by rewrite length_map, computeCurvature_length. Qed.

Lemma lap_speedLimit_length (mu g top : float) (curv : list float) :
  length (lap_speedLimit mu g top curv) = length curv.
Proof.
  unfold lap_speedLimit.
  rewrite (fold_insert_length (fun sl i => Math.min (sl !!! i) top)).
  apply length_map.
Qed.

Lemma forward_pass_length (options : physics) (speedLimit dist : list float) :
  length (forward_pass options speedLimit dist) = length speedLimit.
Proof.
  unfold forward_pass.
  rewrite (fold_insert_length
             (fun v i =>
                Math.min3 (speedLimit !!! i)
                  (Math.sqrt
                     (v !!! (i - 1)%nat * v !!! (i - 1)%nat
                      + 2 * Math.min (options.(enginePower)
                                      / Math.max 1 (options.(enginePower) / 1e3)) 3.5
                        * dist !!! (i - 1)%nat)%float)
                  options.(vTop))).
  by rewrite length_insert, length_replicate.
Qed.

Lemma brake_at_length (options : physics) (dist v : list float) (i : nat) :
  length (brake_at options dist v i) = length v.
Proof. unfold brake_at. destruct (_ <? _)%float; [apply length_insert|done]. Qed.

Lemma brake_round_length (options : physics) (dist v : list float) :
  length (brake_round options dist v) = length v.
Proof. apply fold_length, brake_at_length. Qed.

Lemma backward_pass_length (options : physics) (dist v : list float) :
  length (backward_pass options dist v) = length v.
Proof.
  unfold backward_pass, Nat.iter. cbn [nat_rect].
  by rewrite !brake_round_length.
Qed.

(** The loop that sums the times pushes [v[0], v[1], ...] onto [segV]. *)
Lemma lap_times_fold (dist v : list float) (idx : list nat) (acc : float * list float) :
  (fold_left
     (fun '(totalT, segV) i =>
        (totalT + dist !!! i / Math.max 0.1 (v !!! i), segV ++ [v !!! i])%float)
     idx acc).2
  = acc.2 ++ map (fun i => v !!! i) idx.
Proof.
  revert acc. induction idx as [|i idx IH]; intros [t s]; cbn.
  - by rewrite app_nil_r.
  - rewrite IH. cbn. by rewrite <- app_assoc.
Qed.

Lemma lap_times_profile (dist v : list float) : (lap_times dist v).2 = v.
Proof. unfold lap_times. rewrite lap_times_fold. cbn. apply read_all. Qed.

(** [simulateLap] on a path it accepts, in terms of its stages. *)
Lemma simulateLap_stages (st : physics) (path : list point) (options : physics) :
  2 <= length path ->
  let d := lap_dist hypot st.(pxToMeter) path in
  let sl := lap_speedLimit st.(tyreMu) 9.81 options.(vTop)
              (lap_curv hypot st.(pxToMeter) path) in
  let v := backward_pass options d (forward_pass options sl d) in
  simulateLap hypot st path options = Some (Lap (lap_times d v).1 v d sl).
Proof.
  intros Hn d sl v. unfold simulateLap.
  destruct (Nat.ltb_spec (length path) 2) as [?|_]; [lia|].
  fold d sl v. pose proof (lap_times_profile d v) as Hp.
  destruct (lap_times d v) as [t s]. cbn in *. by subst.
Qed.

(** [simulateLap] returns [null] only for a path of fewer than 2 points. *)
Lemma simulateLap_none (st : physics) (path : list point) (options : physics) :
  simulateLap hypot st path options = None -> length path < 2.
Proof.
  unfold simulateLap.
  destruct (Nat.ltb_spec (length path) 2) as [?|?]; [done|].
  by destruct (lap_times _ _).
Qed.

End LapShape.

(** ** The lap simulator: speed limits *)

(** A loop [for(i=0;i<l.length;i++) l[i] = f(l[i])] maps [f] over the array. *)
Lemma fold_insert_map {A : Type} `{!Inhabited A} (f : A -> A) (pre suf : list A) :
  fold_left (fun l i => <[ i := f (l !!! i) ]> l) (seq (length pre) (length suf)) (pre ++ suf)
  = pre ++ map f suf.
Proof.
  revert pre. induction suf as [|a suf IH]; intros pre; cbn; [done|].
  rewrite list_lookup_total_middle by done.
  rewrite insert_app_r_alt, Nat.sub_diag by lia. cbn.
  specialize (IH (pre ++ [f a])).
  rewrite length_app, <- app_assoc in IH. cbn in IH.
  rewrite Nat.add_1_r in IH. rewrite IH. by rewrite <- app_assoc.
Qed.

Lemma lap_speedLimit_map (mu g top : float) (curv : list float) :
  lap_speedLimit mu g top curv
  = map (fun k => Math.min (grip_limit mu g top k) top) curv.
Proof.
  unfold lap_speedLimit.
  rewrite <- (length_map (grip_limit mu g top) curv).
  rewrite (fold_insert_map (fun s => Math.min s top) [] (map (grip_limit mu g top) curv)).
  cbn. by rewrite map_map.
Qed.

(** C3, as amended: the speed limit of a sample is
    [sqrt(max(0.5, tyreMu*g/k))] when its curvature magnitude [k], in 1/m,
    exceeds [1e-8], and the top speed otherwise, for a small non-zero
    curvature too; the result is then capped at the top speed. *)
Theorem speedLimit_formula (hypot : float -> float -> float) (st : physics)
    (path : list point) (options : physics) :
  match simulateLap hypot st path options with
  | None => length path < 2
  | Some r =>
      r.(speedLimit)
      = map (fun c =>
               capped_limit st.(tyreMu) options.(vTop)
                 (Math.abs c.(kappa) / st.(pxToMeter))%float)
            (computeCurvature hypot path)
  end.
Proof.
  destruct (decide (2 <= length path)) as [Hn|Hn].
  - rewrite simulateLap_stages by done. cbn [speedLimit].
    rewrite lap_speedLimit_map. unfold lap_curv. rewrite map_map.
    reflexivity.
  - unfold simulateLap.
    destruct (Nat.ltb_spec (length path) 2) as [?|?]; [done|lia].
Qed.

(** C3, as stated, fails on a gentle corner: the middle sample of
    [triangle] at map scale has the non-zero curvature [1.25e-9] per metre,
    for which the claim gives the grip limit of about 112057 m/s, while
    [simulateLap] gives the top speed of [1e6] m/s. *)
Lemma speedLimit_formula_counterexample :
  exists r k,
    simulateLap hypot_ref map_scale_physics triangle map_scale_physics = Some r /\
    lap_curv hypot_ref map_scale_physics.(pxToMeter) triangle !! 1 = Some k /\
    (k =? 0)%float = false /\
    r.(speedLimit) !! 1 = Some 1e6%float /\
    limit_as_specified map_scale_physics.(tyreMu) map_scale_physics.(vTop) k
    = 112057.12828731602%float.
Proof.
  eexists _, _. split; [vm_compute; reflexivity|].
  split; [vm_compute; reflexivity|].
  repeat split; vm_compute; reflexivity.
Qed.

(** ** The lap simulator: braking *)

Section Braking.

Variable hypot : float -> float -> float.

(** One braking step at an index other than [j] leaves [v[j]] alone. *)
Lemma brake_at_other (options : physics) (dist v : list float) (i j : nat) :
  i <> j -> brake_at options dist v i !!! j = v !!! j.
Proof.
  intros Hij. unfold brake_at.
  destruct (_ <? _)%float; [|done].
  by apply list_lookup_total_insert_ne.
Qed.

(** A braking round never writes the last sample. *)
Lemma brake_round_last (options : physics) (dist v : list float) :
  brake_round options dist v !!! (length v - 1) = v !!! (length v - 1).
Proof.
  unfold brake_round.
  apply (fold_invariant
           (fun l => l !!! (length v - 1) = v !!! (length v - 1))
           (brake_at options dist)); [|done].
  intros l i Hi Hl. rewrite brake_at_other; [done|].
  rewrite list_elem_of_In, <- in_rev, <- list_elem_of_In, elem_of_seq in Hi. lia.
Qed.

Lemma backward_pass_last (options : physics) (dist v : list float) :
  backward_pass options dist v !!! (length v - 1) = v !!! (length v - 1).
Proof.
  unfold backward_pass, Nat.iter. cbn [nat_rect].
  set (v1 := brake_round options dist v).
  set (v2 := brake_round options dist v1).
  assert (length v1 = length v) as L1 by apply brake_round_length.
  assert (length v2 = length v) as L2.
  { unfold v2. by rewrite brake_round_length. }
  transitivity (v2 !!! (length v2 - 1)).
  { rewrite <- L2. apply brake_round_last. }
  transitivity (v1 !!! (length v1 - 1)).
  { rewrite L2, <- L1. apply brake_round_last. }
  rewrite L1. apply brake_round_last.
Qed.

(** The last round of the loop over the times adds the closing segment. *)
Lemma time_upto_S (dist v : list float) (k : nat) :
  time_upto dist v (S k)
  = (time_upto dist v k + dist !!! k / Math.max 0.1 (v !!! k))%float.
Proof.
  unfold time_upto. rewrite seq_S, fold_left_app. cbn.
  by destruct (fold_left _ _ _).
Qed.

Lemma lap_times_total (dist v : list float) :
  (lap_times dist v).1 = time_upto dist v (length v).
Proof. reflexivity. Qed.

(** On every path [simulateLap] accepts, the last sample keeps the speed
    the forward pass gave it, and its segment counts in the lap time. *)
Lemma closing_segment_stages (st : physics) (path : list point) (options : physics) :
  match simulateLap hypot st path options with
  | None => length path < 2
  | Some r =>
      let n := length path in
      let forward := forward_pass options r.(speedLimit) r.(dist) in
      r.(speedProfile) !!! (n - 1) = forward !!! (n - 1) /\
      r.(time)
      = (time_upto r.(dist) r.(speedProfile) (n - 1)%nat
         + r.(dist) !!! (n - 1)%nat
           / Math.max 0.1 (r.(speedProfile) !!! (n - 1)%nat))%float
  end.
Proof.
  destruct (decide (2 <= length path)) as [Hn|Hn].
  - rewrite simulateLap_stages by done. cbn [speedProfile dist speedLimit time].
    set (d := lap_dist hypot _ path). set (sl := lap_speedLimit _ _ _ _).
    assert (length (forward_pass options sl d) = length path) as Hf.
    { unfold sl. by rewrite forward_pass_length, lap_speedLimit_length, lap_curv_length. }
    split.
    + rewrite <- Hf. apply backward_pass_last.
    + rewrite lap_times_total, backward_pass_length, Hf.
      replace (length path) with (S (length path - 1)) at 1 by lia.
      apply time_upto_S.
  - unfold simulateLap.
    destruct (Nat.ltb_spec (length path) 2) as [?|?]; [done|lia].
Qed.

End Braking.

(** C10: the braking rounds of [simulateLap] run over the indices [n-2]
    down to [0] only, so the last sample keeps its forward-pass speed, and
    its segment, which closes the loop, still counts in the lap time; on
    [hairpin] the last speed, 22 m/s, is far above the 9.63 m/s from which
    braking over the closing 2 m reaches the first sample's speed. *)
Theorem closing_segment_not_braked :
  (forall (hypot : float -> float -> float) (st : physics) (path : list point)
          (options : physics),
     match simulateLap hypot st path options with
     | None => length path < 2
     | Some r =>
         let n := length path in
         let forward := forward_pass options r.(speedLimit) r.(dist) in
         r.(speedProfile) !!! (n - 1) = forward !!! (n - 1) /\
         r.(time)
         = (time_upto r.(dist) r.(speedProfile) (n - 1)%nat
            + r.(dist) !!! (n - 1)%nat
              / Math.max 0.1 (r.(speedProfile) !!! (n - 1)%nat))%float
     end) /\
  (exists r,
     simulateLap hypot_ref default_physics hairpin default_physics = Some r /\
     r.(speedProfile) !!! 4 = 22%float /\
     brake_reach default_physics.(maxBrakeAccel) (r.(dist) !!! 4) (r.(speedProfile) !!! 0)
     = 9.6324451724367481%float /\
     (brake_reach default_physics.(maxBrakeAccel) (r.(dist) !!! 4%nat)
        (r.(speedProfile) !!! 0%nat)
      <? r.(speedProfile) !!! 4%nat)%float = true).
Proof.
  split.
  - intros. apply closing_segment_stages.
  - eexists. split; [vm_compute; reflexivity|].
    repeat split; vm_compute; reflexivity.
Qed.

(** ** The lap simulator: range of the speeds *)

Section SpeedRange.

#[local] Open Scope float_scope.

Variable top : float.
Hypothesis top_positive : (0 <? top) = true.

Lemma speed_ok_nan : speed_ok top nan.
Proof. by left. Qed.

Lemma speed_ok_0 : speed_ok top 0.
Proof. right. split; float_order. Qed.

Lemma speed_ok_nonneg (s : float) : speed_ok top s -> nonneg_or_nan s.
Proof. unfold speed_ok, nonneg_or_nan. tauto. Qed.

Lemma nonneg_top : nonneg_or_nan top.
Proof. right. float_order. Qed.

(** [Math.min(a, top)] is in range once [a] is not negative. *)
Lemma min_top_ok (a : float) : nonneg_or_nan a -> speed_ok top (Math.min a top).
Proof.
  unfold nonneg_or_nan, speed_ok, Math.min. intros Ha.
  destruct (PrimFloat.is_nan a || PrimFloat.is_nan top) eqn:En; [by left|].
  apply orb_false_iff in En as [Ea Et].
  destruct (a <? top) eqn:E1; [|destruct (top <? a) eqn:E2; [|destruct (JS.sign_bit a)]];
    right; split; float_order.
Qed.

Lemma min_nonneg (a b : float) :
  nonneg_or_nan a -> nonneg_or_nan b -> nonneg_or_nan (Math.min a b).
Proof.
  unfold nonneg_or_nan, Math.min. intros Ha Hb.
  destruct (PrimFloat.is_nan a || PrimFloat.is_nan b) eqn:En; [by left|].
  apply orb_false_iff in En as [Ea Eb].
  destruct (a <? b) eqn:E1; [|destruct (b <? a) eqn:E2; [|destruct (JS.sign_bit a)]];
    right; float_order.
Qed.

Lemma min3_top_ok (a b : float) :
  nonneg_or_nan a -> nonneg_or_nan b -> speed_ok top (Math.min3 a b top).
Proof. intros Ha Hb. apply min_top_ok, min_nonneg; done. Qed.

(** The speed a braking step writes is in range. *)
Lemma max_0_ok (allow vi : float) :
  (allow <? vi) = true -> speed_ok top vi -> speed_ok top (Math.max 0 allow).
Proof.
  unfold speed_ok, Math.max. intros Hlt Hvi.
  destruct (PrimFloat.is_nan 0 || PrimFloat.is_nan allow) eqn:En; [by left|].
  apply orb_false_iff in En as [_ Ea].
  change (JS.sign_bit 0) with false. cbv iota.
  destruct (0 <? allow) eqn:E1; [|destruct (allow <? 0) eqn:E2];
    right; split; float_order.
Qed.

Lemma grip_limit_nonneg (mu g k : float) : nonneg_or_nan (grip_limit mu g top k).
Proof.
  unfold grip_limit. destruct (1e-8 <? k); [apply sqrt_nonneg|apply nonneg_top].
Qed.

Lemma speed_ok_lookup (l : list float) (i : nat) :
  Forall (speed_ok top) l -> speed_ok top (l !!! i).
Proof.
  intros Hl. destruct (l !! i) as [s|] eqn:E.
  - rewrite (list_lookup_total_correct l i s E).
    by eapply Forall_lookup_1.
  - rewrite list_lookup_total_alt, E. apply speed_ok_nan.
Qed.

Lemma lap_speedLimit_ok (mu g : float) (curv : list float) :
  Forall (speed_ok top) (lap_speedLimit mu g top curv).
Proof.
  rewrite lap_speedLimit_map. apply Forall_forall. intros s Hs.
  apply list_elem_of_In, in_map_iff in Hs as (k & <- & _).
  apply min_top_ok, grip_limit_nonneg.
Qed.

Lemma forward_pass_ok (options : physics) (speedLimit dist : list float) :
  options.(vTop) = top ->
  Forall (speed_ok top) speedLimit ->
  Forall (speed_ok top) (forward_pass options speedLimit dist).
Proof.
  intros Ht Hsl. unfold forward_pass. rewrite Ht.
  apply (fold_invariant (Forall (speed_ok top))).
  - intros v i _ Hv. apply Forall_insert; [done|].
    apply min3_top_ok; [|apply sqrt_nonneg].
    apply speed_ok_nonneg, speed_ok_lookup, Hsl.
  - apply Forall_insert; [apply Forall_replicate, speed_ok_0|].
    apply min_top_ok, speed_ok_nonneg, speed_ok_lookup, Hsl.
Qed.

Lemma brake_at_ok (options : physics) (dist v : list float) (i : nat) :
  Forall (speed_ok top) v -> Forall (speed_ok top) (brake_at options dist v i).
Proof.
  intros Hv. unfold brake_at.
  destruct (Math.sqrt _ <? _) eqn:E; [|done].
  apply Forall_insert; [done|].
  eapply max_0_ok; [exact E|]. by apply speed_ok_lookup.
Qed.

Lemma backward_pass_ok (options : physics) (dist v : list float) :
  Forall (speed_ok top) v -> Forall (speed_ok top) (backward_pass options dist v).
Proof.
  intros Hv. unfold backward_pass, Nat.iter. cbn [nat_rect].
  do 3 (apply (fold_invariant (Forall (speed_ok top)));
        [intros; by apply brake_at_ok|]).
  done.
Qed.

End SpeedRange.

(** X15, on the code that claim C2 cites: for every path with at least
    2 points and every
    physics bundle with a positive top speed, every entry of the speed
    profile is NaN or lies between 0 and the top speed; no entry is below 0
    or above the top speed. *)
Theorem speedProfile_in_range (hypot : float -> float -> float) (st : physics)
    (path : list point) (options : physics) :
  (0 <? options.(vTop))%float = true ->
  match simulateLap hypot st path options with
  | None => length path < 2
  | Some r => Forall (speed_ok options.(vTop)) r.(speedProfile)
  end.
Proof.
  intros Htop.
  destruct (decide (2 <= length path)) as [Hn|Hn].
  - rewrite simulateLap_stages by done. cbn [speedProfile].
    apply backward_pass_ok; [done|].
    apply forward_pass_ok; [done|done|].
    by apply lap_speedLimit_ok.
  - unfold simulateLap.
    destruct (Nat.ltb_spec (length path) 2) as [?|?]; [done|lia].
Qed.

Lemma speedProfile_in_range_witness :
  (0 <? default_physics.(vTop))%float = true /\
  match simulateLap hypot_ref default_physics hairpin default_physics with
  | None => length hairpin < 2
  | Some r => Forall (speed_ok default_physics.(vTop)) r.(speedProfile)
  end.
Proof.
  split; [reflexivity|].
  apply (speedProfile_in_range hypot_ref default_physics hairpin default_physics).
  reflexivity.
Defined.

(** C2, as stated, fails for a negative engine power: on the 400 m straight
    the forward pass takes the square root of [22*22 - 2*400], and the
    profile is [22; NaN], whose second entry is not [>= 0]. *)
Lemma speedProfile_in_range_counterexample :
  2 <= length straight /\
  (0 <? negative_power.(vTop))%float = true /\
  exists r s,
    simulateLap hypot_ref negative_power straight negative_power = Some r /\
    r.(speedProfile) = [22%float; s] /\
    (0 <=? s)%float = false /\ (s <=? negative_power.(vTop))%float = false.
Proof.
  split; [cbn; lia|]. split; [reflexivity|].
  eexists _, _. split; [vm_compute; reflexivity|].
  repeat split; reflexivity.
Qed.

(** ** The lap simulator: what the two passes establish *)

Section Profile.

#[local] Open Scope float_scope.

(** Capping a square root at zero from below does not raise it. *)
Lemma max_0_sqrt (a : float) : (Math.sqrt a <? Math.max 0 (Math.sqrt a)) = false.
Proof.
  destruct (sqrt_nonneg a) as [Hn|Hp]; set (r := Math.sqrt a) in *; clearbody r.
  - float_order.
  - assert (PrimFloat.is_nan r = false) as Er by float_order.
    unfold Math.max. rewrite Er.
    change (PrimFloat.is_nan 0 || false) with false.
    change (JS.sign_bit 0) with false. cbv iota.
    destruct (0 <? r) eqn:E1; [|destruct (r <? 0) eqn:E2]; float_order.
Qed.

Lemma brake_at_braked (options : physics) (dist v : list float) (i : nat) :
  (i < length v)%nat -> braked options dist (brake_at options dist v i) i.
Proof.
  intros Hi. unfold braked, brake_reach, brake_at.
  destruct (Math.sqrt _ <? v !!! i) eqn:E; [|exact E].
  rewrite list_lookup_total_insert_ne by lia.
  rewrite list_lookup_total_insert_eq by done.
  apply max_0_sqrt.
Qed.

Lemma brake_at_keeps (options : physics) (dist v : list float) (i j : nat) :
  j <> i -> (j + 1)%nat <> i ->
  braked options dist v j -> braked options dist (brake_at options dist v i) j.
Proof.
  intros H1 H2. unfold braked. by rewrite !brake_at_other by done.
Qed.

Lemma brake_loop_braked (options : physics) (dist : list float) (m : nat) (v : list float) :
  (m < length v)%nat ->
  (forall j, (m <= j)%nat -> (j + 1 < length v)%nat -> braked options dist v j) ->
  forall j, (j + 1 < length v)%nat ->
            braked options dist (fold_left (brake_at options dist) (rev (seq 0 m)) v) j.
Proof.
  revert v. induction m as [|m IH]; intros v Hm Hv j Hj.
  - cbn. apply Hv; [lia|done].
  - rewrite seq_S, rev_app_distr. cbn [rev app fold_left Nat.add].
    apply IH.
    + rewrite brake_at_length. lia.
    + intros k Hk Hk'. rewrite brake_at_length in Hk'.
      destruct (decide (k = m)) as [->|Hne].
      * apply brake_at_braked. lia.
      * apply brake_at_keeps; [done|lia|]. apply Hv; [lia|done].
    + by rewrite brake_at_length.
Qed.

Lemma brake_round_braked (options : physics) (dist v : list float) (j : nat) :
  (j + 1 < length v)%nat -> braked options dist (brake_round options dist v) j.
Proof.
  intros Hj. unfold brake_round. apply brake_loop_braked; [lia| |done].
  intros k Hk Hk'. lia.
Qed.

Lemma backward_pass_braked (options : physics) (dist v : list float) (j : nat) :
  (j + 1 < length v)%nat -> braked options dist (backward_pass options dist v) j.
Proof.
  intros Hj. unfold backward_pass, Nat.iter. cbn [nat_rect].
  apply brake_round_braked. by rewrite !brake_round_length.
Qed.

(** The limit side: minima stay below their first argument. *)
Lemma min_within_l (a b : float) : within_limit a (Math.min a b).
Proof.
  unfold within_limit, Math.min.
  destruct (PrimFloat.is_nan a || PrimFloat.is_nan b) eqn:En; [by left|].
  apply orb_false_iff in En as [Ea Eb].
  destruct (a <? b) eqn:E1; [|destruct (b <? a) eqn:E2; [|destruct (JS.sign_bit a)]];
    right; float_order.
Qed.

Lemma within_limit_trans (a b c : float) :
  within_limit a b -> within_limit b c -> within_limit a c.
Proof. unfold within_limit. intros [Hb|Hb] [Hc|Hc]; [by left|..]; float_order. Qed.

Lemma min3_within (a b c : float) : within_limit a (Math.min3 a b c).
Proof.
  unfold Math.min3.
  apply (within_limit_trans a (Math.min a b)); apply min_within_l.
Qed.

Lemma max_0_within (limit allow vi : float) :
  (allow <? vi) = true -> nonneg_or_nan allow -> within_limit limit vi ->
  within_limit limit (Math.max 0 allow).
Proof.
  unfold within_limit, nonneg_or_nan, Math.max. intros Hlt Ha Hvi.
  destruct (PrimFloat.is_nan 0 || PrimFloat.is_nan allow) eqn:En; [by left|].
  apply orb_false_iff in En as [_ Ea].
  change (JS.sign_bit 0) with false. cbv iota.
  destruct (0 <? allow) eqn:E1; [|destruct (allow <? 0) eqn:E2];
    right; float_order.
Qed.

Lemma within_limit_nan (limit : float) : within_limit limit nan.
Proof. by left. Qed.

Lemma forward_loop_within (options : physics) (speedLimit dist : list float)
    (len a : nat) (v : list float) :
  (a + len <= length v)%nat ->
  (forall i, (i < a)%nat -> within_limit (speedLimit !!! i) (v !!! i)) ->
  forall i, (i < a + len)%nat ->
    within_limit (speedLimit !!! i)
      (fold_left
         (fun v i =>
            <[ i := Math.min3 (speedLimit !!! i)
                      (Math.sqrt
                         (v !!! (i - 1)%nat * v !!! (i - 1)%nat
                          + 2 * Math.min (options.(enginePower)
                                          / Math.max 1 (options.(enginePower) / 1e3)) 3.5
                            * dist !!! (i - 1)%nat))
                      options.(vTop) ]> v)
         (seq a len) v !!! i).
Proof.
  revert a v. induction len as [|len IH]; intros a v Hlen Hv i Hi; cbn.
  - apply Hv. lia.
  - apply IH; [rewrite length_insert; lia| |lia].
    intros k Hk. destruct (decide (k = a)) as [->|Hne].
    + rewrite list_lookup_total_insert_eq by lia. apply min3_within.
    + rewrite list_lookup_total_insert_ne by done. apply Hv. lia.
Qed.

Lemma forward_pass_within (options : physics) (speedLimit dist : list float) (i : nat) :
  within_limit (speedLimit !!! i) (forward_pass options speedLimit dist !!! i).
Proof.
  destruct (decide (i < length speedLimit)%nat) as [Hi|Hi].
  - unfold forward_pass.
    assert (1 <= length speedLimit)%nat as Hpos by lia.
    replace (length speedLimit) with (1 + (length speedLimit - 1))%nat in Hi by lia.
    apply forward_loop_within; [rewrite length_insert, length_replicate; lia| |done].
    intros k Hk. assert (k = 0)%nat as -> by lia.
    rewrite list_lookup_total_insert_eq by (rewrite length_replicate; lia).
    apply min_within_l.
  - rewrite (list_lookup_total_alt (forward_pass _ _ _)).
    rewrite lookup_ge_None_2; [apply within_limit_nan|].
    rewrite forward_pass_length. lia.
Qed.

Lemma brake_at_within (options : physics) (speedLimit dist v : list float) (i : nat) :
  (forall k, within_limit (speedLimit !!! k) (v !!! k)) ->
  forall k, within_limit (speedLimit !!! k) (brake_at options dist v i !!! k).
Proof.
  intros Hv k. unfold brake_at.
  destruct (Math.sqrt _ <? v !!! i) eqn:E; [|apply Hv].
  destruct (decide (k = i)) as [->|Hne].
  - destruct (decide (i < length v)%nat) as [Hi|Hi].
    + rewrite list_lookup_total_insert_eq by done.
      eapply max_0_within; [exact E|apply sqrt_nonneg|apply Hv].
    + rewrite list_insert_ge by lia. apply Hv.
  - rewrite list_lookup_total_insert_ne by done. apply Hv.
Qed.

Lemma backward_pass_within (options : physics) (speedLimit dist v : list float) :
  (forall k, within_limit (speedLimit !!! k) (v !!! k)) ->
  forall k, within_limit (speedLimit !!! k) (backward_pass options dist v !!! k).
Proof.
  intros Hv. unfold backward_pass, Nat.iter. cbn [nat_rect].
  do 3 (apply (fold_invariant
                 (fun v => forall k, within_limit (speedLimit !!! k) (v !!! k)));
        [intros; by apply brake_at_within|]).
  done.
Qed.

End Profile.

(** X3: in the profile [simulateLap] returns, every sample but the last is
    braked: its speed is not above the speed from which braking at
    [maxBrakeAccel] over its segment reaches the next sample's speed. *)
Theorem speedProfile_braked (hypot : float -> float -> float) (st : physics)
    (path : list point) (options : physics) :
  match simulateLap hypot st path options with
  | None => length path < 2
  | Some r =>
      forall i, i + 1 < length path ->
                braked options r.(dist) r.(speedProfile) i
  end.
Proof.
  destruct (decide (2 <= length path)) as [Hn|Hn].
  - rewrite simulateLap_stages by done. cbn [speedProfile dist].
    intros i Hi. apply backward_pass_braked.
    by rewrite forward_pass_length, lap_speedLimit_length, lap_curv_length.
  - unfold simulateLap.
    destruct (Nat.ltb_spec (length path) 2) as [?|?]; [done|lia].
Qed.

(** X4: in the result of [simulateLap] no speed is above the speed limit
    of its sample: every entry of the profile is NaN or at most the entry
    of [speedLimit] at the same index. *)
Theorem speedProfile_within_limit (hypot : float -> float -> float) (st : physics)
    (path : list point) (options : physics) :
  match simulateLap hypot st path options with
  | None => length path < 2
  | Some r =>
      forall i, within_limit (r.(speedLimit) !!! i) (r.(speedProfile) !!! i)
  end.
Proof.
  destruct (decide (2 <= length path)) as [Hn|Hn].
  - rewrite simulateLap_stages by done. cbn [speedProfile speedLimit].
    apply backward_pass_within. intros k. apply forward_pass_within.
  - unfold simulateLap.
    destruct (Nat.ltb_spec (length path) 2) as [?|?]; [done|lia].
Qed.

(** ** The optimizer: the hill-climb never gets worse *)

Lemma not_above_refl (a : float) : not_above a a.
Proof. by left. Qed.

Lemma not_above_trans (a b c : float) :
  not_above a b -> not_above b c -> not_above a c.
Proof.
  intros [->|Hab] [->|Hbc]; [by left|by right|by right|].
  right. float_order.
Qed.

(** Away from NaN, [not_above] is the comparison [<=]. *)
Lemma not_above_leb (a b : float) :
  PrimFloat.is_nan b = false -> not_above a b -> (a <=? b)%float = true.
Proof. intros Hb [->|Hab]; float_order. Qed.

Lemma nonincreasing_snoc (ts : list float) (b t : float) :
  nonincreasing ts -> last ts = Some b -> not_above t b ->
  nonincreasing (ts ++ [t]).
Proof.
  induction ts as [|t1 [|t2 ts] IH]; cbn; intros Hts Hlast Ht.
  - done.
  - injection Hlast as ->. done.
  - destruct Hts as [H12 Hts]. split; [done|]. by apply IH.
Qed.

Section HillClimb.

Variable hypot : float -> float -> float.
Variable random : nat -> float.
Variable st : physics.
Variable normals : list normal.
Variable allowed : list Bound.t.
Variable iterations : nat.
Variable t0 : float.

#[local] Abbreviation Inv := (tracked hypot st t0).

(** A try keeps the invariant: it changes the state only for a lap that
    was simulated from the new candidate and is strictly faster. *)
Lemma attempt_tracked (it k : nat) (s s' : search) (better : bool) :
  Inv s ->
  attempt hypot random st normals allowed iterations it k s = Ok (s', better) ->
  Inv s'.
Proof.
  intros [Hsim Htime Hfirst Hlast Hord Hbest]. unfold attempt.
  destruct (array_index _) as [i|]; [|done].
  destruct (allowed !! i) as [a|]; [|done].
  destruct (shift _ _ _ _) as [newCandidate| |]; cbn; [|done|done].
  destruct (simulateLap hypot st (smoothPath newCandidate 2) st) as [sim|] eqn:Esim.
  - destruct (sim.(time) <? s.(bestTime))%float eqn:Elt; intros [= <- <-].
    + split; cbn.
      * done.
      * done.
      * destruct (lapTimes s); [done|]. exact Hfirst.
      * apply last_snoc.
      * eapply nonincreasing_snoc; [done|done|by right].
      * eapply not_above_trans; [|exact Hbest]. by right.
    + by split.
  - intros [= <- <-]. by split.
Qed.

Lemma tries_tracked (it t left : nat) (s : search) (improved : bool) :
  Inv s ->
  Inv (state_of (tries hypot random st normals allowed iterations it t left s improved).1).
Proof.
  revert t s improved.
  induction left as [|left IH]; intros t s improved Hs; cbn [tries]; [done|].
  destruct (attempt _ _ _ _ _ _ _ _ s) as [[s' better]| |] eqn:E; cbn; [|done|done].
  apply IH. by eapply attempt_tracked.
Qed.

Lemma climb_tracked (it left : nat) (s : search) :
  Inv s ->
  Inv (state_of (climb hypot random st normals allowed iterations it left s)).
Proof.
  revert it s. induction left as [|left IH]; intros it s Hs; cbn [climb]; [done|].
  pose proof (tries_tracked it 0 30 s false Hs) as Ht.
  destruct (tries _ _ _ _ _ _ _ _ _ _ _) as [[s'|s'] improved];
    cbn [state_of fst] in Ht |- *.
  - destruct (negb improved && _); [done|]. by apply IH.
  - done.
Qed.

End HillClimb.

(** X14, on the code that claim C1 cites: in every run of the hill-climb
    of [optimizeRacingLine], whatever
    the random draws, the corridor and the way the run ends, the lap times
    it publishes start at the lap time of the seed path and never increase;
    the racing line it leaves has the last of them as its simulated lap
    time, which is not above the seed's (and is [<=] it unless the seed's
    lap time is NaN). *)
Theorem lap_time_never_increases (hypot : float -> float -> float)
    (random : nat -> float) (st : physics) (normals : list normal)
    (allowed : list Bound.t) (iterations : nat) (seed : list point) :
  match hill_climb hypot random st normals allowed iterations seed,
        simulateLap hypot st seed st with
  | Climbed o, Some sim0 =>
      let s := state_of o in
      head s.(lapTimes) = Some sim0.(time) /\
      nonincreasing s.(lapTimes) /\
      last s.(lapTimes) = Some s.(bestTime) /\
      (exists sim, simulateLap hypot st s.(candidate) st = Some sim /\
                   sim.(time) = s.(bestTime)) /\
      not_above s.(bestTime) sim0.(time) /\
      (PrimFloat.is_nan sim0.(time) = false ->
       (s.(bestTime) <=? sim0.(time))%float = true)
  | NoBaseline, None => length seed < 2
  | _, _ => False
  end.
Proof.
  unfold hill_climb.
  destruct (simulateLap hypot st seed st) as [sim0|] eqn:Esim;
    [|by eapply simulateLap_none].
  assert (tracked hypot st sim0.(time)
            (SearchState seed sim0.(time) sim0 [sim0.(time)])) as H0.
  { split; cbn; try done. apply not_above_refl. }
  pose proof (climb_tracked hypot random st normals allowed iterations
                sim0.(time) 0 iterations _ H0) as H.
  destruct (climb _ _ _ _ _ _ _ _ _) as [s|s]; cbn in H |- *;
    destruct H as [Hsim Htime Hfirst Hlast Hord Hbest].
  - repeat split.
    + destruct (lapTimes s); [done|]. exact Hfirst.
    + eapply nonincreasing_snoc; [done|done|apply not_above_refl].
    + apply last_snoc.
    + by exists s.(bestSim).
    + done.
    + intros Hnan. by apply not_above_leb.
  - repeat split; try done.
    + by exists s.(bestSim).
    + intros Hnan. by apply not_above_leb.
Qed.

(** ** The optimizer: the racing line grows *)

Lemma for_push_length {A : Type} (f : nat -> result A) (idx : list nat) (out : list A) :
  for_push f idx = Ok out -> length out = length idx.
Proof.
  revert out. induction idx as [|i idx IH]; intros out; cbn.
  - by intros [= <-].
  - destruct (f i) as [a| |]; cbn; [|done|done].
    destruct (for_push f idx) as [rest| |]; cbn; [|done|done].
    intros [= <-]. cbn. by rewrite (IH rest).
Qed.

Lemma shift_length (normals : list normal) (candidate : list point) (i : nat)
    (step : float) (out : list point) :
  shift normals candidate i step = Ok out -> length out = length candidate.
Proof. intros H%for_push_length. by rewrite length_seq in H. Qed.

Section Growth.

Variable hypot : float -> float -> float.
Variable random : nat -> float.
Variable st : physics.
Variable normals : list normal.
Variable allowed : list Bound.t.
Variable iterations : nat.
Variable size : nat.
Hypothesis size_3 : 3 <= size.

#[local] Abbreviation grown := (grown size).

Lemma attempt_grown (it k : nat) (s s' : search) (better : bool) :
  grown s ->
  attempt hypot random st normals allowed iterations it k s = Ok (s', better) ->
  grown s'.
Proof.
  intros [Hl Hc]. unfold attempt.
  destruct (array_index _) as [i|]; [|done].
  destruct (allowed !! i) as [a|]; [|done].
  destruct (shift _ _ _ _) as [newCandidate| |] eqn:Eshift; cbn; [|done|done].
  apply shift_length in Eshift.
  destruct (simulateLap hypot st (smoothPath newCandidate 2) st) as [sim|].
  - destruct (sim.(time) <? s.(bestTime))%float; intros [= <- <-]; [|done].
    unfold grown. cbn [lapTimes candidate]. rewrite length_app. cbn [length].
    split; [lia|].
    assert (3 <= length newCandidate) as H3.
    { rewrite Eshift, Hc. pose proof (Nat.pow_nonzero 4 (length (lapTimes s) - 1)). nia. }
    unfold smoothPath. destruct (Nat.ltb_spec (length newCandidate) 3); [lia|].
    rewrite corner_cut_iter_length by (destruct newCandidate; [cbn in H3; lia|done]).
    rewrite Eshift, Hc.
    replace (length (lapTimes s) + 1 - 1) with (S (length (lapTimes s) - 1)) by lia.
    cbn [Nat.pow]. lia.
  - by intros [= <- <-].
Qed.

Lemma tries_grown (it t left : nat) (s : search) (improved : bool) :
  grown s ->
  grown (state_of (tries hypot random st normals allowed iterations it t left s improved).1).
Proof.
  revert t s improved.
  induction left as [|left IH]; intros t s improved Hs; cbn [tries]; [done|].
  destruct (attempt _ _ _ _ _ _ _ _ s) as [[s' better]| |] eqn:E; cbn; [|done|done].
  apply IH. by eapply attempt_grown.
Qed.

Lemma climb_grown (it left : nat) (s : search) :
  grown s ->
  grown (state_of (climb hypot random st normals allowed iterations it left s)).
Proof.
  revert it s. induction left as [|left IH]; intros it s Hs; cbn [climb]; [done|].
  pose proof (tries_grown it 0 30 s false Hs) as Ht.
  destruct (tries _ _ _ _ _ _ _ _ _ _ _) as [[s'|s'] improved];
    cbn [state_of fst] in Ht |- *.
  - destruct (negb improved && _); [done|]. by apply IH.
  - done.
Qed.

End Growth.

(** X5: every improvement the hill-climb accepts replaces the racing line
    by its smoothing, which has four times as many points: a run on a seed
    of at least 3 points that published [k] lap times after the baseline
    (the final re-publication apart) leaves a line of [4^k] times the
    seed's points, while [normals] and [allowed] keep the seed's size. *)
Theorem hill_climb_line_grows (hypot : float -> float -> float)
    (random : nat -> float) (st : physics) (normals : list normal)
    (allowed : list Bound.t) (iterations : nat) (seed : list point) :
  3 <= length seed ->
  match hill_climb hypot random st normals allowed iterations seed with
  | Climbed (Returned s) =>
      length s.(candidate) = length seed * 4 ^ (length s.(lapTimes) - 2)
  | Climbed (Threw s) =>
      length s.(candidate) = length seed * 4 ^ (length s.(lapTimes) - 1)
  | _ => False
  end.
Proof.
  intros H3. unfold hill_climb.
  destruct (simulateLap hypot st seed st) as [sim0|] eqn:Esim.
  - assert (grown (length seed) (SearchState seed sim0.(time) sim0 [sim0.(time)])) as H0.
    { split; cbn; lia. }
    pose proof (climb_grown hypot random st normals allowed iterations (length seed) H3
                  0 iterations _ H0) as H.
    destruct (climb _ _ _ _ _ _ _ _ _) as [s|s]; cbn [state_of] in H;
      destruct H as [Hl Hc]; cbn [candidate lapTimes].
    + rewrite length_app. cbn [length].
      by replace (length (lapTimes s) + 1 - 2) with (length (lapTimes s) - 1) by lia.
    + done.
  - apply simulateLap_none in Esim. lia.
Qed.

Lemma hill_climb_line_grows_witness :
  3 <= length octagon /\
  match hill_climb hypot_ref (fun k => match k with 0 => 0.1 | _ => 0.5 end)%float
          default_physics (normals_of hypot_ref octagon)
          (replicate 8 (Bound.Make (-10) 10)%float) 1 octagon with
  | Climbed (Returned s) =>
      length s.(candidate) = length octagon * 4 ^ (length s.(lapTimes) - 2)
  | Climbed (Threw s) =>
      length s.(candidate) = length octagon * 4 ^ (length s.(lapTimes) - 1)
  | _ => False
  end.
Proof.
  split; [cbn; lia|].
  apply (hill_climb_line_grows hypot_ref
           (fun k => match k with 0 => 0.1 | _ => 0.5 end)%float
           default_physics (normals_of hypot_ref octagon)
           (replicate 8 (Bound.Make (-10) 10)%float) 1 octagon).
  cbn; lia.
Defined.

(** ** The path resampler *)

Lemma fkey_2 : fkey 2 = (1, -51, 4503599627370496)%Z.
Proof. reflexivity. Qed.

Lemma fnan_2 : fnan 2 = false.
Proof. reflexivity. Qed.

(** [Math.max(2, a)] is never below zero. *)
Lemma max_2_not_negative (a : float) : (Math.max 2 a <? 0)%float = false.
Proof.
  unfold Math.max.
  destruct (PrimFloat.is_nan 2 || PrimFloat.is_nan a) eqn:En; [reflexivity|].
  apply orb_false_iff in En as [_ Ea].
  change (JS.sign_bit 2) with false. cbv iota.
  destruct (2 <? a)%float eqn:E1; [|destruct (a <? 2)%float eqn:E2];
    rewrite ?is_nan_iff in *;
    repeat match goal with
      | H : _ = false |- _ => apply Bool.not_true_iff_false in H
      | |- _ = false => apply Bool.not_true_iff_false
      end;
    rewrite ?ltb_iff in *; rewrite ?fkey_0, ?fnan_0, ?fkey_2, ?fnan_2 in *;
    unfold Order.klt in *; cbn [fst snd] in *;
    try (intuition lia);
    destruct (fkey a) as [[? ?] ?]; cbn [fst snd] in *; intuition lia.
Qed.

Lemma floorZ_not_nan (a : float) (z : Z) :
  JS.floorZ a = Some z -> PrimFloat.is_nan a = false.
Proof.
  rewrite is_nan_iff. unfold JS.floorZ, fnan.
  by destruct (Prim2SF a) as [| | |].
Qed.

Section Resample.

Variable hypot : float -> float -> float.

Lemma cumulative_length (pts : list point) :
  pts <> [] -> length (cumulative hypot pts) = length pts.
Proof.
  intros Hne. unfold cumulative.
  rewrite (fold_push_length
             (fun d i =>
                [(d !!! (i - 1)%nat
                  + distance hypot (pts !!! i) (pts !!! (i - 1)%nat))%float]) 1);
    [|done].
  rewrite length_seq. destruct pts; [done|]. cbn. lia.
Qed.

Lemma cumulative_cons (pts : list point) :
  exists next, cumulative hypot pts = 0%float :: next.
Proof.
  unfold cumulative. generalize (seq 1 (length pts - 1)).
  assert (forall idx d0 next,
            exists next',
              fold_left
                (fun d i =>
                   d ++ [(d !!! (i - 1)%nat
                          + distance hypot (pts !!! i) (pts !!! (i - 1)%nat))%float])
                idx (d0 :: next) = d0 :: next') as H.
  { induction idx as [|i idx IH]; intros d0 next; cbn; [by eexists|].
    apply IH. }
  intros idx. apply H.
Qed.

(** Where the cumulative-distance lookup stops. *)
Lemma seek_bounds (next : list float) (t : float) (j : nat) :
  j <= seek next t j <= j + length next /\
  (seek next t j = j + length next -> Forall (fun d => (d <? t)%float = true) next).
Proof.
  revert j. induction next as [|d next IH]; intros j; cbn.
  - split; [lia|]. by constructor.
  - destruct (d <? t)%float eqn:E.
    + destruct (IH (S j)) as [Hb Hall]. split; [lia|].
      intros Heq. constructor; [done|]. apply Hall. lia.
    + split; [lia|]. intros Heq. lia.
Qed.

(** A sample whose arc length is not beyond the total lies on a segment. *)
Lemma seek_in_range (pts : list point) (t : float) :
  2 <= length pts ->
  (arc_length hypot pts <? t)%float = false ->
  seek (tail (cumulative hypot pts)) t 0 + 1 < length pts.
Proof.
  intros Hn Ht. unfold arc_length in Ht.
  assert (pts <> []) as Hne by (destruct pts; [cbn in Hn; lia|done]).
  pose proof (cumulative_length pts Hne) as Hlen.
  destruct (cumulative_cons pts) as [next Hd]. rewrite Hd in *.
  cbn [length tail] in Hlen, Ht |- *.
  destruct (seek_bounds next t 0) as [Hb Hall].
  destruct (decide (seek next t 0 = length next)) as [Heq|Hneq]; [|lia].
  exfalso. specialize (Hall Heq).
  assert (is_Some (next !! (length next - 1))) as [dl Hdl].
  { apply lookup_lt_is_Some_2. lia. }
  assert ((0%float :: next) !!! (S (length next) - 1) = dl) as Hlast.
  { apply list_lookup_total_correct.
    rewrite lookup_cons_ne_0 by lia.
    rewrite <- Hdl. f_equal. lia. }
  rewrite Hlast in Ht.
  pose proof (Forall_lookup_1 _ _ _ _ Hall Hdl) as Hlt. cbn in Hlt. congruence.
Qed.

(** A loop of pushes that never throws fills one element per round. *)
Lemma for_push_ok {A : Type} (f : nat -> result A) (g : nat -> A) (idx : list nat) :
  (forall i, i ∈ idx -> f i = Ok (g i)) ->
  for_push f idx = Ok (map g idx).
Proof.
  induction idx as [|i idx IH]; intros Hf; cbn; [done|].
  rewrite (Hf i) by (by left). cbn.
  rewrite IH; [done|]. intros k Hk. apply Hf. by right.
Qed.

Lemma sample_interpolates (pts : list point) (spacing : float) (i : nat) :
  2 <= length pts ->
  (arc_length hypot pts <? arc_at hypot pts spacing i)%float = false ->
  let t := arc_at hypot pts spacing i in
  let j := segment_of hypot pts t in
  j + 1 < length pts /\
  sample pts (cumulative hypot pts) (resample_n hypot pts spacing)
         (arc_length hypot pts) i
  = Ok (lerp (pts !!! j) (pts !!! (j + 1)) (fraction_of hypot pts t)).
Proof.
  intros Hn Ht t j.
  pose proof (seek_in_range pts t Hn Ht) as Hj. fold (segment_of hypot pts t) in Hj.
  fold j in Hj. split; [done|].
  unfold sample. fold (arc_at hypot pts spacing i). fold t.
  fold (segment_of hypot pts t). fold j.
  destruct (lookup_lt_is_Some_2 pts j) as [pj Hpj]; [lia|].
  destruct (lookup_lt_is_Some_2 pts (j + 1)) as [pj1 Hpj1]; [lia|].
  rewrite Hpj, Hpj1.
  rewrite (list_lookup_total_correct _ _ _ Hpj), (list_lookup_total_correct _ _ _ Hpj1).
  reflexivity.
Qed.

Lemma iterations_upto_count (a : float) (z : Z) :
  (a <? 0)%float = false -> JS.floorZ a = Some z -> (z < 2 ^ 53)%Z ->
  iterations_upto a = Some (Z.to_nat z + 1).
Proof.
  intros Hneg Hz Hlt. unfold iterations_upto.
  rewrite (floorZ_not_nan a z Hz), Hneg, Hz. cbn [orb].
  destruct (Z.ltb_spec z (2 ^ 53)); [done|lia].
Qed.

(** The samples of [resamplePath], in terms of its own lookup. *)
Lemma resample_samples (pts : list point) (spacing : float) (z : Z) :
  2 <= length pts ->
  JS.floorZ (resample_n hypot pts spacing) = Some z ->
  (z < 2 ^ 53)%Z ->
  (forall i, i <= Z.to_nat z ->
             (arc_length hypot pts <? arc_at hypot pts spacing i)%float = false) ->
  exists out,
    resamplePath hypot pts spacing = Ok out /\
    length out = Z.to_nat z + 1 /\
    forall i, i <= Z.to_nat z ->
      let t := arc_at hypot pts spacing i in
      let j := segment_of hypot pts t in
      j + 1 < length pts /\
      out !! i = Some (lerp (pts !!! j) (pts !!! (j + 1)) (fraction_of hypot pts t)).
Proof.
  intros Hn Hz Hlt Harc.
  set (g := fun i =>
              let t := arc_at hypot pts spacing i in
              let j := segment_of hypot pts t in
              lerp (pts !!! j) (pts !!! (j + 1)) (fraction_of hypot pts t)).
  exists (map g (seq 0 (Z.to_nat z + 1))). split; [|split].
  - unfold resamplePath.
    destruct (Nat.ltb_spec (length pts) 2) as [?|_]; [lia|].
    fold (resample_n hypot pts spacing).
    rewrite (iterations_upto_count _ z); [|apply max_2_not_negative|done|done].
    apply for_push_ok. intros i Hi. apply elem_of_seq in Hi.
    apply sample_interpolates; [done|]. apply Harc. lia.
  - by rewrite length_map, length_seq.
  - intros i Hi t j. split.
    + apply sample_interpolates; [done|]. by apply Harc.
    + change (map g) with (fmap (M := list) g).
      rewrite list_lookup_fmap, lookup_seq_lt by lia. reflexivity.
Qed.

(** The loop that builds [d] fills the table of cumulative distances. *)
Lemma cumulative_loop (pts : list point) (m : nat) :
  let d := fold_left
             (fun d i =>
                d ++ [(d !!! (i - 1)%nat
                       + distance hypot (pts !!! i) (pts !!! (i - 1)%nat))%float])
             (seq 1 m) [0%float] in
  length d = m + 1 /\
  d !! 0 = Some 0%float /\
  forall k, k + 1 <= m ->
            d !! (k + 1)
            = Some (d !!! k + distance hypot (pts !!! (k + 1)%nat) (pts !!! k))%float.
Proof.
  induction m as [|m (Hlen & H0 & Hrec)]; cbn zeta.
  - cbn. split; [done|]. split; [done|]. intros k Hk. lia.
  - rewrite seq_S, fold_left_app. cbn [fold_left].
    set (d := fold_left _ (seq 1 m) [0%float]) in *. cbn zeta in Hlen, H0, Hrec.
    replace (1 + m - 1) with m by lia.
    split; [rewrite length_app; cbn; lia|].
    split; [rewrite lookup_app_l by lia; done|].
    intros k Hk.
    rewrite (lookup_total_app_l d) by lia.
    destruct (decide (k = m)) as [->|Hne].
    + rewrite lookup_app_r by lia.
      replace (m + 1 - length d) with 0 by lia. cbn.
      by replace (S m) with (m + 1) by lia.
    + rewrite lookup_app_l by lia. apply Hrec. lia.
Qed.

Lemma cumulative_is_table (pts : list point) :
  pts <> [] -> cumulative_table hypot pts (cumulative hypot pts).
Proof.
  intros Hne. destruct (cumulative_loop pts (length pts - 1)) as (Hlen & H0 & Hrec).
  fold (cumulative hypot pts) in Hlen, H0, Hrec.
  assert (1 <= length pts) by (destruct pts; [done|cbn; lia]).
  split; [lia|]. split; [done|]. intros k Hk. apply Hrec. lia.
Qed.

(** The table of cumulative distances is the one the code builds. *)
Lemma cumulative_table_unique (pts : list point) (d : list float) :
  cumulative_table hypot pts d -> d = cumulative hypot pts.
Proof.
  intros (Hlen & H0 & Hrec).
  assert (pts <> []) as Hne.
  { intros ->. cbn in Hlen. by destruct d. }
  destruct (cumulative_is_table pts Hne) as (Hlen' & H0' & Hrec').
  apply list_eq. intros i.
  destruct (decide (i < length pts)) as [Hi|Hi]; cycle 1.
  { rewrite !lookup_ge_None_2; [done|lia..]. }
  induction i as [|i IH]; [congruence|].
  specialize (IH ltac:(lia)).
  replace (S i) with (i + 1) by lia.
  rewrite Hrec, Hrec' by lia.
  by rewrite !list_lookup_total_alt, IH.
Qed.

(** Where the lookup in the cumulative distances stops: at the first
    entry that is not below [t]. *)
Lemma seek_first (next : list float) (t : float) (j0 : nat) :
  (forall k, j0 <= k < seek next t j0 -> (next !!! (k - j0)%nat <? t)%float = true) /\
  (seek next t j0 < j0 + length next ->
   (next !!! (seek next t j0 - j0)%nat <? t)%float = false).
Proof.
  revert j0. induction next as [|d next IH]; intros j0; cbn [seek length].
  - split; intros; lia.
  - destruct (d <? t)%float eqn:E.
    + destruct (IH (S j0)) as [Hbefore Hat].
      pose proof (seek_bounds next t (S j0)) as [Hb _].
      split.
      * intros k Hk. destruct (decide (k = j0)) as [->|Hne].
        { by rewrite Nat.sub_diag. }
        replace (k - j0) with (S (k - S j0)) by lia. cbn. apply Hbefore. lia.
      * intros Hlt.
        replace (seek next t (S j0) - j0) with (S (seek next t (S j0) - S j0)) by lia.
        cbn. apply Hat. lia.
    + split; [intros; lia|]. intros _. by rewrite Nat.sub_diag.
Qed.

(** X16, on the code that claim C4 cites: for a path of at least 2 points
    with the table [d] of cumulative distances, whose number of parts
    [n = max(2, round(total / spacing))] is finite (below 2^53),
    [resamplePath] returns exactly [n + 1] points.  The [i]-th lies at the
    arc length [t = (i/n) * total], so that the points cut the polyline
    into [n] parts of equal arc length: it is on the first segment [j]
    whose end [d[j+1]] is not before [t], every earlier segment ending
    before [t], and it is the linear interpolation between the points [j]
    and [j + 1] at the fraction [(t - d[j]) / (d[j+1] - d[j])] of that
    segment.  No sample lies beyond the total arc length, which the
    hypothesis states of the arithmetic. *)
Theorem resamplePath_points (pts : list point) (spacing : float) (d : list float)
    (z : Z) :
  2 <= length pts ->
  cumulative_table hypot pts d ->
  JS.floorZ (parts_of d spacing) = Some z ->
  (z < 2 ^ 53)%Z ->
  (forall i, i <= Z.to_nat z -> (total_of d <? arc_of d spacing i)%float = false) ->
  exists out,
    resamplePath hypot pts spacing = Ok out /\
    length out = Z.to_nat z + 1 /\
    forall i, i <= Z.to_nat z ->
      exists j,
        first_reaching d (arc_of d spacing i) j /\
        out !! i
        = Some (lerp (pts !!! j) (pts !!! (j + 1))
                  (fraction_on d (arc_of d spacing i) j)).
Proof.
  intros Hn Htable Hz Hlt Harc.
  pose proof (cumulative_table_unique pts d Htable) as ->.
  destruct (resample_samples pts spacing z Hn Hz Hlt Harc) as (out & Hout & Hlen & Hi).
  exists out. split; [done|]. split; [done|].
  intros i Hle. destruct (Hi i Hle) as [Hj Hlook].
  set (t := arc_at hypot pts spacing i) in *.
  exists (segment_of hypot pts t). split; [|exact Hlook].
  change (arc_of (cumulative hypot pts) spacing i) with t.
  clearbody t. clear Hz Harc Hi Hlook.
  unfold segment_of, first_reaching in *.
  destruct Htable as (Hdlen & _ & _).
  destruct (cumulative_cons pts) as [next Hd]. rewrite Hd in *.
  cbn [tail length] in *.
  destruct (seek_first next t 0) as [Hbefore Hat].
  split; [lia|]. split.
  - intros k Hk. specialize (Hbefore k ltac:(lia)).
    rewrite Nat.sub_0_r in Hbefore.
    by replace (k + 1) with (S k) by lia.
  - specialize (Hat ltac:(lia)). rewrite Nat.sub_0_r in Hat.
    by replace (seek next t 0 + 1) with (S (seek next t 0)) by lia.
Qed.

End Resample.

(** On [corner], resampled every 5 px: the table is [0, 10, 20], there are
    4 parts, and the samples at the arc lengths 0, 5 and 10 lie on the first
    segment, those at 15 and 20 on the second. *)
Lemma resamplePath_points_witness :
  cumulative_table hypot_ref corner [0; 10; 20]%float /\
  JS.floorZ (parts_of [0; 10; 20]%float 5) = Some 4%Z /\
  resamplePath hypot_ref corner 5
  = Ok [Point 0 0; Point 5 0; Point 10 0; Point 10 5; Point 10 10]%float /\
  exists out,
    resamplePath hypot_ref corner 5 = Ok out /\
    length out = Z.to_nat 4 + 1 /\
    forall i, i <= Z.to_nat 4 ->
      exists j,
        first_reaching [0; 10; 20]%float (arc_of [0; 10; 20]%float 5 i) j /\
        out !! i
        = Some (lerp (corner !!! j) (corner !!! (j + 1))
                  (fraction_on [0; 10; 20]%float (arc_of [0; 10; 20]%float 5 i) j)).
Proof.
  assert (cumulative_table hypot_ref corner [0; 10; 20]%float) as Htable.
  { split; [reflexivity|]. split; [reflexivity|].
    intros k Hk. destruct k as [|[|k]]; [reflexivity|reflexivity|cbn in Hk; lia]. }
  split; [exact Htable|]. split; [reflexivity|]. split; [vm_compute; reflexivity|].
  apply (resamplePath_points hypot_ref corner 5 [0; 10; 20]%float 4).
  - cbn; lia.
  - exact Htable.
  - reflexivity.
  - lia.
  - intros i Hi. change (Z.to_nat 4) with 4 in Hi.
    destruct i as [|[|[|[|[|i]]]]]; [reflexivity..|lia].
Defined.

(** C4, as stated, fails on a 10 px segment resampled every 3 px:
    [n = max(2, round(10/3)) = 3], and the result has 4 points. *)
Lemma resamplePath_points_counterexample :
  resample_n hypot_ref segment10 3 = 3%float /\
  resamplePath hypot_ref segment10 3
  = Ok [Point 0 0; Point 3.333333333333333 0; Point 6.6666666666666661 0;
        Point 10 0]%float.
Proof. split; vm_compute; reflexivity. Qed.

(** ** The curvature estimator *)

Section FloatFacts.

#[local] Open Scope float_scope.

Lemma isFinite_shape (a : float) :
  isFinite a = true ->
  (exists s, Prim2SF a = S754_zero s) \/ (exists s m e, Prim2SF a = S754_finite s m e).
Proof.
  unfold isFinite. destruct (Prim2SF a) as [s| | |s m e]; try done; eauto.
Qed.

Lemma is_zero_shape (a : float) :
  PrimFloat.is_zero a = true <-> exists s, Prim2SF a = S754_zero s.
Proof.
  unfold PrimFloat.is_zero. rewrite FloatAxioms.eqb_spec.
  change (Prim2SF 0) with (S754_zero false). unfold SFeqb.
  destruct (Prim2SF a) as [s|[]| |[] m e]; cbn; split; try done; eauto;
    intros [s' [=]].
Qed.

(** A truthy number is finite and not zero, or infinite. *)
Lemma truthy_shape (a : float) :
  JS.truthy a = true ->
  (exists s, Prim2SF a = S754_infinity s) \/ (exists s m e, Prim2SF a = S754_finite s m e).
Proof.
  unfold JS.truthy. rewrite negb_true_iff, orb_false_iff, is_nan_iff.
  intros [Hz Hn]. unfold fnan in Hn.
  destruct (Prim2SF a) as [s|s| |s m e] eqn:E; try done; eauto.
  exfalso. apply Bool.not_true_iff_false in Hz. apply Hz, is_zero_shape. eauto.
Qed.

(** [a || 1] is never zero and never NaN. *)
Lemma or_1_truthy (a : float) : JS.truthy (JS.or a 1) = true.
Proof. unfold JS.or. by destruct (JS.truthy a) eqn:E. Qed.

(** A finite number minus itself is [+0]. *)
Lemma sub_diag (a : float) : isFinite a = true -> a - a = 0.
Proof.
  intros Ha. apply Prim2SF_inj. rewrite FloatAxioms.sub_spec.
  change (Prim2SF 0) with (S754_zero false). unfold SF64sub, SFsub.
  destruct (isFinite_shape a Ha) as [[s ->]|(s & m & e & ->)].
  - by destruct s.
  - rewrite Z.min_id. unfold shl_align. rewrite Z.sub_diag. cbn [fst].
    reflexivity.
Qed.

(** Zero divided by a truthy number is zero. *)
Lemma zero_div (a d : float) :
  PrimFloat.is_zero a = true -> JS.truthy d = true -> PrimFloat.is_zero (a / d) = true.
Proof.
  intros Ha Hd. apply is_zero_shape. rewrite FloatAxioms.div_spec.
  apply is_zero_shape in Ha as [sa ->]. unfold SF64div, SFdiv.
  destruct (truthy_shape d Hd) as [[s ->]|(s & m & e & ->)]; eauto.
Qed.

(** Zero times a finite number is zero, and so is a difference of zeros. *)
Lemma zero_mul_l (a b : float) :
  PrimFloat.is_zero a = true -> isFinite b = true -> PrimFloat.is_zero (a * b) = true.
Proof.
  intros Ha Hb. apply is_zero_shape. rewrite FloatAxioms.mul_spec.
  apply is_zero_shape in Ha as [sa ->]. unfold SF64mul, SFmul.
  destruct (isFinite_shape b Hb) as [[s ->]|(s & m & e & ->)]; eauto.
Qed.

Lemma zero_mul_r (a b : float) :
  isFinite a = true -> PrimFloat.is_zero b = true -> PrimFloat.is_zero (a * b) = true.
Proof.
  intros Ha Hb. apply is_zero_shape. rewrite FloatAxioms.mul_spec.
  apply is_zero_shape in Hb as [sb ->]. unfold SF64mul, SFmul.
  destruct (isFinite_shape a Ha) as [[s ->]|(s & m & e & ->)]; eauto.
Qed.

Lemma zero_sub (a b : float) :
  PrimFloat.is_zero a = true -> PrimFloat.is_zero b = true ->
  PrimFloat.is_zero (a - b) = true.
Proof.
  intros Ha Hb. apply is_zero_shape. rewrite FloatAxioms.sub_spec.
  apply is_zero_shape in Ha as [sa ->]. apply is_zero_shape in Hb as [sb ->].
  unfold SF64sub, SFsub. destruct sa, sb; eauto.
Qed.

Lemma is_zero_finite (a : float) : PrimFloat.is_zero a = true -> isFinite a = true.
Proof. intros [s H]%is_zero_shape. unfold isFinite. by rewrite H. Qed.

End FloatFacts.

Section Curvature.

Variable hypot : float -> float -> float.

#[local] Open Scope float_scope.

Lemma computeCurvature_lookup (pts : list point) (i : nat) (c : curvature) :
  computeCurvature hypot pts !! i = Some c ->
  (i < length pts)%nat /\ c = curvature_at hypot pts i.
Proof.
  unfold computeCurvature.
  change (map (curvature_at hypot pts)) with (fmap (M := list) (curvature_at hypot pts)).
  rewrite list_lookup_fmap. intros H.
  destruct (seq 0 (length pts) !! i) as [k|] eqn:E; [|done].
  apply lookup_seq in E as [-> Hi]. cbn in H. by injection H as <-.
Qed.

Lemma curvature_at_divisions (pts : list point) (i : nat) :
  curvature_at hypot pts i
  = Curvature (cross_at pts i / denom_at hypot pts i)
              ((dx1_at pts i + dx2_at pts i) / 2 / tlen_at hypot pts i)
              ((dy1_at pts i + dy2_at pts i) / 2 / tlen_at hypot pts i).
Proof. reflexivity. Qed.

(** The cross product of a degenerate segment with a finite one is zero. *)
Lemma cross_zero_l (pts : list point) (i : nat) :
  PrimFloat.is_zero (dx1_at pts i) = true -> PrimFloat.is_zero (dy1_at pts i) = true ->
  isFinite (dx2_at pts i) = true -> isFinite (dy2_at pts i) = true ->
  PrimFloat.is_zero (cross_at pts i) = true.
Proof.
  intros. unfold cross_at. apply zero_sub; by apply zero_mul_l.
Qed.

Lemma cross_zero_r (pts : list point) (i : nat) :
  isFinite (dx1_at pts i) = true -> isFinite (dy1_at pts i) = true ->
  PrimFloat.is_zero (dx2_at pts i) = true -> PrimFloat.is_zero (dy2_at pts i) = true ->
  PrimFloat.is_zero (cross_at pts i) = true.
Proof.
  intros. unfold cross_at. apply zero_sub; by apply zero_mul_r.
Qed.

(** X17, on the code that claim C6 cites: [computeCurvature] never divides
    by zero or by NaN,
    because a divisor that is zero or NaN is replaced by 1 (not by a small
    epsilon).  At a sample that coincides with a neighbour, with finite
    coordinates and a finite other segment, [kappa] is zero; at a sample
    that coincides with both neighbours, [kappa] and the tangent are zero. *)
Theorem computeCurvature_divisors (pts : list point) (i : nat) (c : curvature) :
  computeCurvature hypot pts !! i = Some c ->
  let p := pts !!! i in
  (c.(kappa) = cross_at pts i / denom_at hypot pts i /\
   PrimFloat.is_zero (denom_at hypot pts i) = false /\
   PrimFloat.is_nan (denom_at hypot pts i) = false) /\
  (c.(tx) = (dx1_at pts i + dx2_at pts i) / 2 / tlen_at hypot pts i /\
   c.(ty) = (dy1_at pts i + dy2_at pts i) / 2 / tlen_at hypot pts i /\
   PrimFloat.is_zero (tlen_at hypot pts i) = false /\
   PrimFloat.is_nan (tlen_at hypot pts i) = false) /\
  (isFinite p.(x) = true -> isFinite p.(y) = true ->
   (prev_of pts i = p ->
    isFinite (dx2_at pts i) = true -> isFinite (dy2_at pts i) = true ->
    PrimFloat.is_zero c.(kappa) = true) /\
   (next_of pts i = p ->
    isFinite (dx1_at pts i) = true -> isFinite (dy1_at pts i) = true ->
    PrimFloat.is_zero c.(kappa) = true) /\
   (prev_of pts i = p -> next_of pts i = p ->
    PrimFloat.is_zero c.(kappa) = true /\
    PrimFloat.is_zero c.(tx) = true /\
    PrimFloat.is_zero c.(ty) = true)).
Proof.
  intros [Hi ->]%computeCurvature_lookup p. rewrite curvature_at_divisions.
  cbn [kappa tx ty].
  assert (forall a, JS.truthy (JS.or a 1) = true ->
                    PrimFloat.is_zero (JS.or a 1) = false /\
                    PrimFloat.is_nan (JS.or a 1) = false) as Hsplit.
  { intros a Ht. unfold JS.truthy in Ht.
    by apply negb_true_iff, orb_false_iff in Ht. }
  pose proof (or_1_truthy
                (hypot (dx1_at pts i) (dy1_at pts i) * hypot (dx2_at pts i) (dy2_at pts i)
                 * (hypot (dx1_at pts i) (dy1_at pts i)
                    + hypot (dx2_at pts i) (dy2_at pts i)))) as Hdenom.
  pose proof (or_1_truthy
                (hypot ((dx1_at pts i + dx2_at pts i) / 2)
                       ((dy1_at pts i + dy2_at pts i) / 2))) as Htlen.
  fold (denom_at hypot pts i) in Hdenom. fold (tlen_at hypot pts i) in Htlen.
  split; [|split].
  - split; [done|]. by apply Hsplit.
  - do 2 (split; [done|]). by apply Hsplit.
  - intros Hx Hy. split; [|split].
    + intros Hprev Hdx Hdy. apply zero_div; [|done].
      apply cross_zero_l; try done.
      * unfold dx1_at. rewrite Hprev. fold p. by rewrite sub_diag.
      * unfold dy1_at. rewrite Hprev. fold p. by rewrite sub_diag.
    + intros Hnext Hdx Hdy. apply zero_div; [|done].
      apply cross_zero_r; try done.
      * unfold dx2_at. rewrite Hnext. fold p. by rewrite sub_diag.
      * unfold dy2_at. rewrite Hnext. fold p. by rewrite sub_diag.
    + intros Hprev Hnext.
      assert (dx1_at pts i = 0) as E1.
      { unfold dx1_at. rewrite Hprev. fold p. by apply sub_diag. }
      assert (dy1_at pts i = 0) as E2.
      { unfold dy1_at. rewrite Hprev. fold p. by apply sub_diag. }
      assert (dx2_at pts i = 0) as E3.
      { unfold dx2_at. rewrite Hnext. fold p. by apply sub_diag. }
      assert (dy2_at pts i = 0) as E4.
      { unfold dy2_at. rewrite Hnext. fold p. by apply sub_diag. }
      repeat split; (apply zero_div; [|done]).
      * unfold cross_at. by rewrite E1, E2, E3, E4.
      * by rewrite E1, E3.
      * by rewrite E2, E4.
Qed.

End Curvature.

Lemma computeCurvature_divisors_witness :
  computeCurvature hypot_ref stalled !! 1
  = Some (Curvature 0 0 0)%float /\
  let c := Curvature 0 0 0%float in
  let p := stalled !!! 1 in
  (c.(kappa) = cross_at stalled 1 / denom_at hypot_ref stalled 1 /\
   PrimFloat.is_zero (denom_at hypot_ref stalled 1) = false /\
   PrimFloat.is_nan (denom_at hypot_ref stalled 1) = false)%float /\
  (c.(tx) = (dx1_at stalled 1 + dx2_at stalled 1) / 2 / tlen_at hypot_ref stalled 1 /\
   c.(ty) = (dy1_at stalled 1 + dy2_at stalled 1) / 2 / tlen_at hypot_ref stalled 1 /\
   PrimFloat.is_zero (tlen_at hypot_ref stalled 1) = false /\
   PrimFloat.is_nan (tlen_at hypot_ref stalled 1) = false)%float /\
  (isFinite p.(x) = true -> isFinite p.(y) = true ->
   (prev_of stalled 1 = p ->
    isFinite (dx2_at stalled 1) = true -> isFinite (dy2_at stalled 1) = true ->
    PrimFloat.is_zero c.(kappa) = true) /\
   (next_of stalled 1 = p ->
    isFinite (dx1_at stalled 1) = true -> isFinite (dy1_at stalled 1) = true ->
    PrimFloat.is_zero c.(kappa) = true) /\
   (prev_of stalled 1 = p -> next_of stalled 1 = p ->
    PrimFloat.is_zero c.(kappa) = true /\
    PrimFloat.is_zero c.(tx) = true /\
    PrimFloat.is_zero c.(ty) = true)).
Proof.
  split; [reflexivity|].
  apply (computeCurvature_divisors hypot_ref stalled 1 (Curvature 0 0 0)%float).
  reflexivity.
Defined.

(** C6, as stated, fails on three points with finite coordinates that are
    10^200 px apart: both products of the cross product overflow, and
    [kappa], their difference divided by the denominator, is NaN. *)
Lemma computeCurvature_divisors_counterexample :
  Forall (fun p => isFinite p.(x) = true /\ isFinite p.(y) = true) far_apart /\
  exists c,
    computeCurvature hypot_ref far_apart !! 1 = Some c /\
    (dx1_at far_apart 1 * dy2_at far_apart 1)%float = infinity /\
    (dy1_at far_apart 1 * dx2_at far_apart 1)%float = infinity /\
    PrimFloat.is_nan c.(kappa) = true.
Proof.
  split.
  - repeat constructor.
  - eexists. split; [vm_compute; reflexivity|]. repeat split.
Qed.

(** * The lap simulator: what the result holds *)

(** A loop [for(...) l[j] = g(j)] leaves [g(i)] at every index it visits. *)
Lemma fold_insert_lookup {A : Type} (g : nat -> A) (idx : list nat) (l : list A)
    (i : nat) :
  i < length l ->
  fold_left (fun l j => <[ j := g j ]> l) idx l !! i
  = if decide (i ∈ idx) then Some (g i) else l !! i.
Proof.
  revert l. induction idx as [|j idx IH]; intros l Hi; cbn.
  - by rewrite decide_False by apply not_elem_of_nil.
  - rewrite IH by (by rewrite length_insert).
    destruct (decide (i ∈ idx)) as [Hin|Hout].
    + rewrite decide_True; [done|]. by right.
    + destruct (decide (i = j)) as [->|Hne].
      * rewrite decide_True by (by left).
        by rewrite list_lookup_insert_eq.
      * rewrite decide_False by (rewrite elem_of_cons; tauto).
        by rewrite list_lookup_insert_ne.
Qed.

(** The loop over the times adds up the segment times in order. *)
Lemma lap_times_sum_from (pd pv sd sv : list float) (acc : float * list float) :
  length pd = length pv -> length sd = length sv ->
  (fold_left
     (fun '(totalT, segV) i =>
        (totalT + (pd ++ sd) !!! i / Math.max 0.1 ((pv ++ sv) !!! i),
         segV ++ [(pv ++ sv) !!! i])%float)
     (seq (length pv) (length sv)) acc).1
  = fold_left PrimFloat.add (zip_with segment_time sd sv) acc.1.
Proof.
  revert pd pv sv acc.
  induction sd as [|d sd IH]; intros pd pv sv [t s] Hp Hs;
    destruct sv as [|v sv]; try done.
  cbn [length seq fold_left zip_with fst].
  rewrite (list_lookup_total_middle pv) by done.
  rewrite <- Hp, (list_lookup_total_middle pd) by done. rewrite Hp.
  specialize (IH (pd ++ [d]) (pv ++ [v]) sv
                (t + d / Math.max 0.1 v, s ++ [v])%float).
  rewrite !length_app, <- !app_assoc in IH. cbn [length app fst] in IH.
  rewrite !Nat.add_1_r in IH.
  apply IH; [lia|]. cbn in Hs. lia.
Qed.

Lemma lap_times_sum (dist v : list float) :
  length dist = length v -> (lap_times dist v).1 = total_time dist v.
Proof.
  intros Hlen. unfold lap_times, total_time.
  apply (lap_times_sum_from [] [] dist v (0%float, [])); done.
Qed.

Section LapResult.

Variable hypot : float -> float -> float.

Lemma lap_dist_lookup (px2m : float) (path : list point) (i : nat) :
  i < length path ->
  lap_dist hypot px2m path !! i = Some (segment_metres hypot px2m path i).
Proof.
  intros Hi. unfold lap_dist, segment_metres, distance.
  pose (g := fun i : nat =>
               (hypot ((path !!! (i + 1)%nat).(x) - (path !!! i).(x))
                      ((path !!! (i + 1)%nat).(y) - (path !!! i).(y)) * px2m)%float).
  change (fold_left _ ?idx ?l) with (fold_left (fun dist j => <[ j := g j ]> dist) idx l).
  assert (length (fold_left (fun dist j => <[ j := g j ]> dist)
                    (seq 0 (length path - 1)) (replicate (length path) 0%float))
          = length path) as Hlen.
  { by rewrite (fold_insert_length (fun _ j => g j)), length_replicate. }
  destruct (decide (i = length path - 1)) as [->|Hne].
  - rewrite list_lookup_insert_eq by lia.
    replace ((length path - 1 + 1) mod length path) with 0; [done|].
    replace (length path - 1 + 1) with (length path) by lia.
    by rewrite Nat.Div0.mod_same.
  - rewrite list_lookup_insert_ne by done.
    rewrite fold_insert_lookup by (rewrite length_replicate; lia).
    rewrite decide_True by (apply elem_of_seq; lia).
    rewrite Nat.mod_small by lia. done.
Qed.

Lemma lap_speedLimit_lookup (st : physics) (top : float) (path : list point) (i : nat) :
  i < length path ->
  lap_speedLimit st.(tyreMu) 9.81 top (lap_curv hypot st.(pxToMeter) path) !! i
  = Some (capped_limit st.(tyreMu) top (curvature_metres hypot st.(pxToMeter) path i)).
Proof.
  intros Hi. rewrite lap_speedLimit_map. unfold lap_curv, computeCurvature.
  rewrite !map_map.
  change (map ?f) with (fmap (M := list) f).
  rewrite list_lookup_fmap, lookup_seq_lt by done. reflexivity.
Qed.

(** C7: [simulateLap] fails (returns [null]) exactly when the path has
    fewer than 2 points.  On every other path it returns a result with one
    entry per sample in each of its three arrays, which carries

    - the distances: entry [i] is the length in metres of the segment from
      sample [i] to the next one, the last one closing the loop;
    - the speed limits: entry [i] is the capped grip limit of the curvature
      magnitude at sample [i];
    - the speed profile: the backward pass over the forward pass on these
      distances and limits, in which no speed is above its limit and every
      sample but the last is braked for the next;
    - the total lap time: the sum, in order, of each distance over the speed
      at its sample, taken as at least 0.1 m/s. *)
Theorem simulateLap_result (st : physics) (path : list point) (options : physics) :
  match simulateLap hypot st path options with
  | None => length path < 2
  | Some r =>
      2 <= length path /\
      length r.(speedProfile) = length path /\
      length r.(dist) = length path /\
      length r.(speedLimit) = length path /\
      (forall i, i < length path ->
         r.(dist) !! i = Some (segment_metres hypot st.(pxToMeter) path i)) /\
      (forall i, i < length path ->
         r.(speedLimit) !! i
         = Some (capped_limit st.(tyreMu) options.(vTop)
                   (curvature_metres hypot st.(pxToMeter) path i))) /\
      r.(speedProfile)
      = backward_pass options r.(dist) (forward_pass options r.(speedLimit) r.(dist)) /\
      (forall i, within_limit (r.(speedLimit) !!! i) (r.(speedProfile) !!! i)) /\
      (forall i, i + 1 < length path -> braked options r.(dist) r.(speedProfile) i) /\
      r.(time) = total_time r.(dist) r.(speedProfile)
  end.
Proof.
  destruct (decide (2 <= length path)) as [Hn|Hn].
  - rewrite simulateLap_stages by done. cbn [speedProfile dist speedLimit time].
    assert (length (backward_pass options (lap_dist hypot st.(pxToMeter) path)
                      (forward_pass options
                         (lap_speedLimit st.(tyreMu) 9.81 options.(vTop)
                            (lap_curv hypot st.(pxToMeter) path))
                         (lap_dist hypot st.(pxToMeter) path)))
            = length path) as Hv.
    { by rewrite backward_pass_length, forward_pass_length, lap_speedLimit_length,
        lap_curv_length. }
    repeat split.
    + done.
    + done.
    + apply lap_dist_length.
    + by rewrite lap_speedLimit_length, lap_curv_length.
    + intros i Hi. by apply lap_dist_lookup.
    + intros i Hi. by apply lap_speedLimit_lookup.
    + apply backward_pass_within. intros k. apply forward_pass_within.
    + intros i Hi. apply backward_pass_braked.
      by rewrite forward_pass_length, lap_speedLimit_length, lap_curv_length.
    + apply lap_times_sum. by rewrite lap_dist_length.
  - unfold simulateLap.
    destruct (Nat.ltb_spec (length path) 2) as [?|?]; [done|lia].
Qed.

End LapResult.

(** ** The curvature estimator reads the path as a closed loop *)

Section ClosedLoop.

Variable hypot : float -> float -> float.

Lemma rotate_nat_add_mod (k i n : nat) : rotate_nat_add k i n = (k + i) mod n.
Proof.
  unfold rotate_nat_add.
  by rewrite <- Nat2Z.inj_add, <- Nat2Z.inj_mod, Nat2Z.id.
Qed.

Lemma rotate_lookup_total (pts : list point) (k i : nat) :
  i < length pts -> rotate k pts !!! i = pts !!! ((k + i) mod length pts).
Proof.
  intros Hi. rewrite !list_lookup_total_alt, lookup_rotate_r by done.
  by rewrite rotate_nat_add_mod.
Qed.

Lemma curvature_at_rotate (pts : list point) (k i : nat) :
  i < length pts ->
  curvature_at hypot (rotate k pts) i
  = curvature_at hypot pts ((k + i) mod length pts).
Proof.
  intros Hi. set (n := length pts).
  assert (0 < n) as Hn by (unfold n; lia).
  unfold curvature_at. rewrite length_rotate. fold n.
  rewrite !rotate_lookup_total; fold n;
    try (apply Nat.mod_upper_bound; lia); [|done].
  replace ((k + (i + n - 1) mod n) mod n) with (((k + i) mod n + n - 1) mod n); cycle 1.
  { rewrite <- (Nat.add_sub_assoc _ n 1) by lia.
    rewrite Nat.Div0.add_mod_idemp_l.
    rewrite <- (Nat.add_sub_assoc i n 1) by lia.
    rewrite Nat.Div0.add_mod_idemp_r. f_equal. lia. }
  replace ((k + (i + 1) mod n) mod n) with (((k + i) mod n + 1) mod n); cycle 1.
  { rewrite Nat.Div0.add_mod_idemp_l, Nat.Div0.add_mod_idemp_r. f_equal. lia. }
  reflexivity.
Qed.

(** X8: [computeCurvature] treats its path as a closed loop: starting the
    same loop [k] points later only rotates the result by [k]. *)
Theorem computeCurvature_rotate (pts : list point) (k : nat) :
  computeCurvature hypot (rotate k pts) = rotate k (computeCurvature hypot pts).
Proof.
  apply list_eq. intros i.
  destruct (decide (i < length pts)) as [Hi|Hi].
  - rewrite lookup_rotate_r by (by rewrite computeCurvature_length).
    rewrite computeCurvature_length, rotate_nat_add_mod.
    unfold computeCurvature. rewrite length_rotate.
    change (map ?f) with (fmap (M := list) f).
    rewrite !list_lookup_fmap.
    rewrite !lookup_seq_lt by (try apply Nat.mod_upper_bound; lia).
    cbn. f_equal. by apply curvature_at_rotate.
  - rewrite !lookup_ge_None_2; [done|..].
    + rewrite length_rotate, computeCurvature_length. lia.
    + rewrite computeCurvature_length, length_rotate. lia.
Qed.

End ClosedLoop.

(** ** The corridor of the optimizer *)

(** Where both paired edge points exist, the bound of a sample holds the
    lesser and the greater of their projections onto the sample's normal. *)
Lemma allowed_at_projections (left right candidate : list point)
    (normals : list normal) (i : nat) (lp rp : point) :
  paired left (length candidate) i = Some lp ->
  paired right (length candidate) i = Some rp ->
  allowed_at left right candidate normals i
  = Ok (Bound.Make
          (Math.min (projection lp (candidate !!! i) (normals !!! i))
                    (projection rp (candidate !!! i) (normals !!! i)))
          (Math.max (projection lp (candidate !!! i) (normals !!! i))
                    (projection rp (candidate !!! i) (normals !!! i)))).
Proof. intros Hl Hr. unfold allowed_at. by rewrite Hl, Hr. Qed.

(** The index [Math.round(i*n/(8n))] that pairs sample [i = 8n-4] with a
    point of an edge of [n] points is [n], one past its last point, for
    every [n] from 3 to 200. *)
Lemma pairing_overruns :
  forallb
    (fun n =>
       match array_index
               (Math.round (JS.Num (8 * n - 4) * JS.Num n / JS.Num (8 * n))%float) with
       | Some k => (k =? n)%nat
       | None => false
       end)
    (seq 3 198) = true.
Proof. vm_compute. reflexivity. Qed.

(** C8 on two five-point edges: the candidate has 40 samples; sample 35
    gets the bound [-2.5, 2.5], but sample 36 is paired with index 5 of a
    five-point edge, no bound is computed for it, and the optimizer ends in
    a [TypeError] before the hill-climb starts. *)
Theorem corridor_pairing_overruns :
  exists centerline,
    computeCenterlineFromEdges hypot_ref left_edge right_edge = Ok (Some centerline) /\
    resamplePath hypot_ref left_edge 3 = Ok left_edge /\
    resamplePath hypot_ref right_edge 3 = Ok right_edge /\
    let candidate := smoothPath (midpoints left_edge right_edge) 3 in
    let normals := normals_of hypot_ref candidate in
    length candidate = 40 /\
    allowed_at left_edge right_edge candidate normals 35
    = Ok (Bound.Make (-2.5) 2.5)%float /\
    Math.round (JS.Num 36 * JS.Num (length left_edge) / JS.Num 40)%float = 5%float /\
    paired left_edge 40 36 = None /\
    allowed_at left_edge right_edge candidate normals 36 = TypeError /\
    corridor hypot_ref left_edge right_edge candidate = TypeError /\
    optimizeRacingLine hypot_ref always_half left_edge right_edge centerline
      default_physics 200 = TypeError.
Proof.
  eexists. split; [vm_compute; reflexivity|].
  repeat split; vm_compute; reflexivity.
Qed.

(** A run of the hill-climb on an octagon: the first try smooths the seed
    and lowers the lap time from 8.78 s to 8.48 s; the candidate now has 32
    points, the second try draws the index 16 of the 8 bounds, and the run
    ends in a [TypeError] with the improved line in place. *)
Example hill_climb_improves_then_throws :
  hill_climb hypot_ref
    (fun k => match k with 0 => 0.1 | _ => 0.5 end)%float
    default_physics (normals_of hypot_ref octagon)
    (replicate 8 (Bound.Make (-10) 10)%float) 1 octagon
  = Climbed (Threw (SearchState (smoothPath octagon 2) 8.4755357517130747%float
                      (default (Lap 0 [] [] [])
                         (simulateLap hypot_ref default_physics (smoothPath octagon 2)
                            default_physics))
                      [8.7789584086294372; 8.4755357517130747]%float)).
Proof. vm_compute. reflexivity. Qed.

(** ** The optimizer never reaches its hill-climb *)

Section FloorFacts.

#[local] Open Scope Z_scope.

Lemma digits2_lower (m : positive) : 2 ^ (Zpos (digits2_pos m) - 1) <= Zpos m.
Proof.
  induction m as [m IH|m IH|]; cbn [digits2_pos].
  - rewrite Pos2Z.inj_succ.
    replace (Z.succ (Zpos (digits2_pos m)) - 1) with (Z.succ (Zpos (digits2_pos m) - 1)) by lia.
    rewrite Z.pow_succ_r by lia. lia.
  - rewrite Pos2Z.inj_succ.
    replace (Z.succ (Zpos (digits2_pos m)) - 1) with (Z.succ (Zpos (digits2_pos m) - 1)) by lia.
    rewrite Z.pow_succ_r by lia. lia.
  - cbn. lia.
Qed.

(** A binary64 mantissa above the subnormal range has 53 digits. *)
Lemma normal_mantissa (a : float) (s : bool) (m : positive) (e : Z) :
  Prim2SF a = S754_finite s m e -> -1074 < e -> 2 ^ 52 <= Zpos m.
Proof.
  intros Ha He. pose proof (Prim2SF_valid a) as Hv. rewrite Ha in Hv.
  unfold SpecFloat.valid_binary, bounded, canonical_mantissa in Hv.
  apply andb_true_iff in Hv as [Hc _]. apply Z.eqb_eq in Hc.
  unfold fexp, emin, FloatOps.prec, FloatOps.emax in Hc.
  pose proof (digits2_lower m) as Hd.
  assert (Zpos (digits2_pos m) = 53) as Hd53 by lia.
  rewrite Hd53 in Hd. exact Hd.
Qed.

(** The integer part of a number that is at least 2 is at least 2. *)
Lemma floorZ_ge_2 (a : float) (z : Z) :
  (2 <=? a)%float = true -> JS.floorZ a = Some z -> 2 <= z.
Proof.
  intros Hle Hz. apply leb_iff in Hle as (_ & _ & Hk).
  rewrite key_2 in Hk. unfold fkey, JS.floorZ in *.
  destruct (Prim2SF a) as [s|s| |s m e] eqn:Ea; try done.
  - exfalso. unfold Order.klt, Order.keq in Hk. cbn in Hk. lia.
  - injection Hz as <-.
    destruct s; unfold Order.klt, Order.keq in Hk; cbn in Hk; [lia|].
    cbn [cond_Zopp].
    destruct (decide (e = -51)) as [->|Hne].
    + rewrite Z.shiftl_div_pow2 by lia.
      apply Z.div_le_lower_bound; lia.
    + assert (-51 < e) as He by lia.
      pose proof (normal_mantissa a false m e Ea ltac:(lia)) as Hm.
      destruct (Z.le_gt_cases 0 e) as [Hpos|Hneg].
      * rewrite Z.shiftl_mul_pow2 by lia.
        pose proof (Z.pow_pos_nonneg 2 e ltac:(lia) Hpos). nia.
      * rewrite Z.shiftl_div_pow2 by lia.
        apply Z.div_le_lower_bound; [apply Z.pow_pos_nonneg; lia|].
        assert (2 ^ (- e) <= 2 ^ 50) by (apply Z.pow_le_mono_r; lia).
        lia.
Qed.

End FloorFacts.

Lemma max_2_ge (a : float) :
  PrimFloat.is_nan (Math.max 2 a) = false -> (2 <=? Math.max 2 a)%float = true.
Proof.
  unfold Math.max.
  destruct (PrimFloat.is_nan 2 || PrimFloat.is_nan a) eqn:En; [done|].
  apply orb_false_iff in En as [_ Ea]. intros _.
  change (JS.sign_bit 2) with false. cbv iota.
  destruct (2 <? a)%float eqn:E1; [|destruct (a <? 2)%float eqn:E2]; float_order.
Qed.

Section NeverClimbs.

Variable hypot : float -> float -> float.

Lemma resample_count (pts : list point) (spacing : float) :
  2 <= length pts ->
  match resamplePath hypot pts spacing with
  | Ok out => length out = 0 \/ 3 <= length out
  | _ => True
  end.
Proof.
  intros Hn. unfold resamplePath.
  destruct (Nat.ltb_spec (length pts) 2) as [?|_]; [lia|].
  set (n := Math.max 2 _). unfold iterations_upto.
  destruct (PrimFloat.is_nan n || (n <? 0)%float) eqn:E.
  - cbn. by left.
  - apply orb_false_iff in E as [Hnan _].
    destruct (JS.floorZ n) as [z|] eqn:Ez; [|done].
    destruct (z <? 2 ^ 53)%Z; [|done].
    destruct (for_push _ _) as [out| |] eqn:Eout; [|done|done].
    apply for_push_length in Eout. rewrite length_seq in Eout.
    right. pose proof (floorZ_ge_2 n z (max_2_ge _ Hnan) Ez). lia.
Qed.

(** X6: [resamplePath] never returns 1 or 2 points for a path of at least
    2 points: it returns no point at all, when its loop bound is NaN, or at
    least 3 points. *)
Theorem resamplePath_count (pts : list point) (spacing : float) :
  2 <= length pts ->
  match resamplePath hypot pts spacing with
  | Ok out => length out = 0 \/ 3 <= length out
  | _ => True
  end.
Proof.
  intros Hn. unfold resamplePath.
  destruct (Nat.ltb_spec (length pts) 2) as [?|_]; [lia|].
  set (n := Math.max 2 _). unfold iterations_upto.
  destruct (PrimFloat.is_nan n || (n <? 0)%float) eqn:E; [cbn; by left|].
  apply orb_false_iff in E as [Hnan _].
  destruct (JS.floorZ n) as [z|] eqn:Ez; [|done].
  destruct (z <? 2 ^ 53)%Z; [|done].
  destruct (for_push _ _) as [out| |] eqn:Eout; [|done|done].
  apply for_push_length in Eout. rewrite length_seq in Eout.
  right. pose proof (floorZ_ge_2 n z (max_2_ge _ Hnan) Ez). lia.
Qed.

Lemma all_from_spec (P : Z -> bool) (count : nat) (lo z : Z) :
  all_from P lo count = true -> (lo <= z < lo + Z.of_nat count)%Z -> P z = true.
Proof.
  revert lo. induction count as [|c IH]; intros lo H Hz; [lia|].
  cbn [all_from] in H. apply andb_true_iff in H as [H0 Hrest].
  destruct (decide (z = lo)) as [->|Hne]; [done|].
  apply (IH (lo + 1)%Z); [done|lia].
Qed.

Lemma pairing_table : all_from pairs_past_end 3 (Z.to_nat (largest_edge - 2)) = true.
Proof. vm_compute. reflexivity. Qed.

(** Sample [8n - 4] of [8n] is paired with the index [n] of an edge of [n]
    points, which has no such element. *)
Lemma paired_past_end (edge : list point) :
  3 <= length edge -> (Z.of_nat (length edge) <= largest_edge)%Z ->
  paired edge (8 * length edge) (8 * length edge - 4) = None.
Proof.
  intros H3 HN. set (n := length edge) in *.
  pose proof (all_from_spec _ _ 3 (Z.of_nat n) pairing_table) as Ht.
  unfold largest_edge in *.
  specialize (Ht ltac:(lia)). unfold pairs_past_end in Ht.
  unfold paired, element, array_index. fold n.
  change (JS.Num (8 * n - 4)) with (num_of_Z (Z.of_nat (8 * n - 4))).
  change (JS.Num n) with (num_of_Z (Z.of_nat n)).
  change (JS.Num (8 * n)) with (num_of_Z (Z.of_nat (8 * n))).
  replace (Z.of_nat (8 * n - 4)) with (8 * Z.of_nat n - 4)%Z by lia.
  replace (Z.of_nat (8 * n)) with (8 * Z.of_nat n)%Z by lia.
  destruct (JS.floorZ _) as [k|]; [|done].
  apply andb_true_iff in Ht as [Hk Hf]. apply Z.eqb_eq in Hk. subst k.
  rewrite Hf. cbn [andb].
  destruct (Z.leb_spec 0 (Z.of_nat n)); [|lia].
  rewrite Nat2Z.id. apply lookup_ge_None. lia.
Qed.

(** A loop of pushes throws once a round throws and none before hangs. *)
Lemma for_push_throws {A : Type} (f : nat -> result A) (idx : list nat) (i : nat) :
  i ∈ idx -> f i = TypeError -> (forall j, f j <> Diverges) ->
  for_push f idx = TypeError.
Proof.
  intros Hi Hf Hnd. induction idx as [|j idx IH]; [by apply elem_of_nil in Hi|].
  cbn. destruct (decide (j = i)) as [->|Hne].
  - by rewrite Hf.
  - apply elem_of_cons in Hi as [->|Hi]; [done|].
    specialize (IH Hi).
    destruct (f j) as [a| |] eqn:Ej; cbn; [|done|by apply Hnd in Ej].
    by rewrite IH.
Qed.

Lemma midpoints_length (left right : list point) :
  length (midpoints left right) = Nat.min (length left) (length right).
Proof. unfold midpoints. by rewrite length_map, length_seq. Qed.

(** The corridor loop throws on every pair of edges whose shorter one has
    between 3 and [largest_edge] points. *)
Lemma corridor_throws (left right : list point) :
  3 <= Nat.min (length left) (length right) ->
  (Z.of_nat (Nat.min (length left) (length right)) <= largest_edge)%Z ->
  corridor hypot left right (smoothPath (midpoints left right) 3) = TypeError.
Proof.
  intros H3 HN. set (n := Nat.min (length left) (length right)) in *.
  assert (length (smoothPath (midpoints left right) 3) = 8 * n) as Hlen.
  { unfold smoothPath. rewrite midpoints_length. fold n.
    destruct (Nat.ltb_spec n 3); [lia|].
    rewrite corner_cut_iter_length, midpoints_length; [fold n; cbn; lia|].
    intros E. apply (f_equal length) in E. rewrite midpoints_length in E.
    fold n in E. cbn in E. lia. }
  unfold corridor. rewrite Hlen.
  apply (for_push_throws _ _ (8 * n - 4)).
  - apply elem_of_seq. lia.
  - unfold allowed_at. rewrite Hlen.
    destruct (decide (length left = n)) as [El|El].
    + assert (paired left (8 * n) (8 * n - 4) = None) as ->; [|done].
      rewrite <- El. apply paired_past_end; lia.
    + assert (length right = n) as Er by lia.
      assert (paired right (8 * n) (8 * n - 4) = None) as ->.
      { rewrite <- Er. apply paired_past_end; lia. }
      by destruct (paired left _ _).
  - intros j. unfold allowed_at. by repeat case_match.
Qed.

(** X7: [optimizeRacingLine] never reaches its hill-climb: whatever the
    edges, the centerline, the physics and the random draws, as long as the
    shorter resampled edge has at most [largest_edge] points the call ends
    in the alert, in an exception, or in the return that follows a [null]
    baseline, and never sets a racing line or a lap time. *)
Theorem optimizeRacingLine_never_climbs (random : nat -> float)
    (leftPoints rightPoints centerline : list point) (st : physics)
    (iterations : nat) :
  match resamplePath hypot leftPoints 3, resamplePath hypot rightPoints 3 with
  | Ok l, Ok r =>
      (Z.of_nat (Nat.min (length l) (length r)) <= largest_edge)%Z
  | _, _ => True
  end ->
  match optimizeRacingLine hypot random leftPoints rightPoints centerline st
          iterations with
  | Ok (Climbed _) => False
  | _ => True
  end.
Proof.
  intros HN. unfold optimizeRacingLine.
  destruct (length centerline <? 5); [done|].
  pose proof (resample_count leftPoints 3) as HL.
  pose proof (resample_count rightPoints 3) as HR.
  assert (forall pts, length pts < 2 -> resamplePath hypot pts 3 = Ok pts) as Hshort.
  { intros pts Hp. unfold resamplePath.
    by destruct (Nat.ltb_spec (length pts) 2); [|lia]. }
  destruct (resamplePath hypot leftPoints 3) as [left| |] eqn:EL; [|done|done].
  destruct (resamplePath hypot rightPoints 3) as [right| |] eqn:ER; [|done|done].
  cbn [mbind result_bind].
  assert (length left < 2 \/ 3 <= length left) as HL'.
  { destruct (decide (2 <= length leftPoints)) as [H2|H2].
    - specialize (HL H2). lia.
    - rewrite Hshort in EL by lia. injection EL as <-. lia. }
  assert (length right < 2 \/ 3 <= length right) as HR'.
  { destruct (decide (2 <= length rightPoints)) as [H2|H2].
    - specialize (HR H2). lia.
    - rewrite Hshort in ER by lia. injection ER as <-. lia. }
  destruct (decide (3 <= Nat.min (length left) (length right))) as [H3|H3].
  - by rewrite corridor_throws.
  - destruct (corridor _ _ _ _) as [allowed| |]; cbn [mbind result_bind]; [|done|done].
    unfold hill_climb.
    assert (length (smoothPath (midpoints left right) 3) < 2) as Hc.
    { unfold smoothPath. rewrite midpoints_length.
      destruct (Nat.ltb_spec (Nat.min (length left) (length right)) 3); [|lia].
      rewrite midpoints_length. lia. }
    unfold simulateLap at 1.
    by destruct (Nat.ltb_spec (length (smoothPath (midpoints left right) 3)) 2); [|lia].
Qed.

End NeverClimbs.

Lemma optimizeRacingLine_never_climbs_witness :
  match resamplePath hypot_ref left_edge 3, resamplePath hypot_ref right_edge 3 with
  | Ok l, Ok r =>
      (Z.of_nat (Nat.min (length l) (length r)) <= largest_edge)%Z
  | _, _ => True
  end /\
  match optimizeRacingLine hypot_ref always_half left_edge right_edge
          (smoothPath (midpoints left_edge right_edge) 4) default_physics 200 with
  | Ok (Climbed _) => False
  | _ => True
  end.
Proof.
  split; [vm_compute; discriminate|].
  apply (optimizeRacingLine_never_climbs hypot_ref always_half left_edge right_edge
           (smoothPath (midpoints left_edge right_edge) 4) default_physics 200).
  vm_compute. discriminate.
Defined.

Lemma resamplePath_count_witness :
  2 <= length segment10 /\
  match resamplePath hypot_ref segment10 3 with
  | Ok out => length out = 0 \/ 3 <= length out
  | _ => True
  end.
Proof.
  split; [cbn; lia|]. apply (resamplePath_count hypot_ref segment10 3). cbn; lia.
Defined.

(** * The centerline *)

Section Centerline.

Variable hypot : float -> float -> float.

Lemma smoothPath_count (pts : list point) (iters : nat) :
  length pts = 0 \/ 3 <= length pts ->
  length (smoothPath pts iters) = length pts * 2 ^ iters.
Proof.
  intros Hn. unfold smoothPath.
  destruct (Nat.ltb_spec (length pts) 3) as [Hlt|Hge].
  - destruct Hn as [Hn|Hn]; [|lia]. rewrite Hn. lia.
  - apply corner_cut_iter_length. intros ->. cbn in Hge. lia.
Qed.

(** X13.  With at least 5 points on each edge, [computeCenterlineFromEdges]
    does not stop at its alert, and the centerline it sets has 16 times as
    many points as the shorter resampled edge: none at all, or at least
    48.  A centerline that is not empty therefore always passes the
    optimizer's test for at least 5 points. *)
Theorem computeCenterlineFromEdges_count (leftPoints rightPoints : list point) :
  5 <= length leftPoints -> 5 <= length rightPoints ->
  match computeCenterlineFromEdges hypot leftPoints rightPoints with
  | Ok (Some sm) =>
      exists l r, resamplePath hypot leftPoints 3 = Ok l /\
                  resamplePath hypot rightPoints 3 = Ok r /\
                  length sm = 16 * Nat.min (length l) (length r) /\
                  (length sm = 0 \/ 48 <= length sm)
  | Ok None => False
  | _ => True
  end.
Proof.
  intros Hl Hr. unfold computeCenterlineFromEdges.
  destruct (Nat.ltb_spec (length leftPoints) 5) as [?|_]; [lia|].
  destruct (Nat.ltb_spec (length rightPoints) 5) as [?|_]; [lia|].
  cbn [orb].
  pose proof (resample_count hypot leftPoints 3%float ltac:(lia)) as Hcl.
  pose proof (resample_count hypot rightPoints 3%float ltac:(lia)) as Hcr.
  destruct (resamplePath hypot leftPoints 3) as [l| |]; cbn; [|done|done].
  destruct (resamplePath hypot rightPoints 3) as [r| |]; cbn; [|done|done].
  exists l, r. split; [done|]. split; [done|].
  rewrite smoothPath_count; rewrite midpoints_length; cbn; lia.
Qed.

End Centerline.

Lemma computeCenterlineFromEdges_count_witness :
  5 <= length left_edge /\ 5 <= length right_edge /\
  match computeCenterlineFromEdges hypot_ref left_edge right_edge with
  | Ok (Some sm) =>
      exists l r, resamplePath hypot_ref left_edge 3 = Ok l /\
                  resamplePath hypot_ref right_edge 3 = Ok r /\
                  length sm = 16 * Nat.min (length l) (length r) /\
                  (length sm = 0 \/ 48 <= length sm)
  | Ok None => False
  | _ => True
  end.
Proof.
  split; [cbn; lia|]. split; [cbn; lia|].
  apply (computeCenterlineFromEdges_count hypot_ref left_edge right_edge); cbn; lia.
Defined.

(** * The component's handlers *)

Section Handlers.

Variable hypot : float -> float -> float.

(** ** Drawing *)

Lemma add_to_edge_points (p : point) (c : component) :
  leftPoints c `prefix_of` leftPoints (add_to_edge p c) /\
  rightPoints c `prefix_of` rightPoints (add_to_edge p c).
Proof.
  unfold add_to_edge. destruct c as [l r ? ? ? [] ? ? ? ? ? ? ? ?]; cbn;
    split; try done; by apply prefix_app_r.
Qed.

Lemma handle_points (c : component) (ev : event) :
  replaces_edges ev = false ->
  leftPoints c `prefix_of` leftPoints (handle hypot c ev) /\
  rightPoints c `prefix_of` rightPoints (handle hypot c ev).
Proof.
  destruct ev as [e known|e| | |m| |l2 r2|url|f parsed]; cbn; intros Hev; try done.
  - destruct (shiftKey e).
    + unfold calibrateAddPoint.
      destruct c as [l r ? ? ? ? ca ? pa ? ? ? ? ?]; cbn.
      by repeat case_match.
    + unfold handleMouseDown.
      destruct (add_to_edge_points (toCanvasCoords e) (setIsDrawing true c)) as [Hl Hr].
      by destruct c.
  - unfold handleMouseMove. destruct (negb _); [done|].
    apply add_to_edge_points.
  - by destruct c.
  - by destruct c.
  - by destruct c.
  - destruct url; by destruct c.
  - destruct f; by destruct c.
Qed.

(** X9.  The handlers only ever append to the drawn edges, Clear and
    Auto-trace apart: over a session in which neither button is clicked,
    presses, drags, calibration clicks, mode switches, image uploads and
    number inputs leave every point of [leftPoints] and of [rightPoints]
    where it was, so the edges at the end start with the edges at the
    beginning. *)
Theorem session_keeps_drawn_points (c : component) (evs : list event) :
  forallb (fun ev => negb (replaces_edges ev)) evs = true ->
  leftPoints c `prefix_of` leftPoints (session hypot c evs) /\
  rightPoints c `prefix_of` rightPoints (session hypot c evs).
Proof.
  unfold session. revert c.
  induction evs as [|ev evs IH]; intros c Hevs; cbn.
  - done.
  - cbn in Hevs. apply andb_prop in Hevs as [Hev Hevs].
    apply negb_true_iff in Hev.
    destruct (handle_points c ev Hev) as [Hl Hr].
    destruct (IH (handle hypot c ev) Hevs) as [Hl' Hr'].
    split; etrans; eauto.
Qed.

(** ** Calibration *)

Lemma rejected_answer (known : option float) :
  rejected known = true ->
  match known with
  | Some val => negb (PrimFloat.is_nan val) && (0 <? val)%float = false
  | None => True
  end.
Proof.
  destruct known as [val|]; [|done]. cbn.
  destruct (PrimFloat.is_nan val), (0 <? val)%float; done.
Qed.

(** With two calibration points stored, no handler moves the calibration
    points or the scale. *)
Lemma handle_locked (c : component) (ev : event) :
  length (calibrationPoints c) = 2 ->
  calibrationPoints (handle hypot c ev) = calibrationPoints c /\
  pxToMeter (params (handle hypot c ev)) = pxToMeter (params c).
Proof.
  intros Hlen.
  destruct ev as [e known|e| | |m| |l2 r2|url|f parsed]; cbn.
  - destruct (shiftKey e).
    + unfold calibrateAddPoint. rewrite Hlen. done.
    + unfold handleMouseDown, add_to_edge. by destruct c as [? ? ? ? ? [] ? ? ? ? ? ? ? ?].
  - unfold handleMouseMove, add_to_edge. destruct (negb _); [done|].
    by destruct c as [? ? ? ? ? [] ? ? ? ? ? ? ? ?].
  - by destruct c.
  - by destruct c.
  - by destruct c.
  - by destruct c.
  - by destruct c.
  - destruct url; by destruct c.
  - destruct f; by destruct c as [? ? ? ? ? ? ? ? [] ? ? ? ? ?].
Qed.

Lemma session_locked (c : component) (evs : list event) :
  length (calibrationPoints c) = 2 ->
  calibrationPoints (session hypot c evs) = calibrationPoints c /\
  pxToMeter (params (session hypot c evs)) = pxToMeter (params c).
Proof.
  unfold session. revert c.
  induction evs as [|ev evs IH]; intros c Hlen; cbn; [done|].
  destruct (handle_locked c ev Hlen) as [Hca Hpx].
  destruct (IH (handle hypot c ev)) as [Hca' Hpx']; [by rewrite Hca|].
  split; congruence.
Qed.

(** X10.  A rejected answer locks the calibration.  When one calibration
    point is stored and the second Shift+click is answered by cancelling the
    prompt, by leaving it empty, by a text that is no number or by a number
    that is not above zero, both points stay stored, and from then on no
    event changes the scale or the stored points again: not further
    Shift+clicks, whatever is answered, and not Clear. *)
Theorem rejected_calibration_locks_scale (c : component) (e : mouse)
    (known : option float) (evs : list event) :
  length (calibrationPoints c) = 1 ->
  shiftKey e = true ->
  rejected known = true ->
  let c' := session hypot (handle hypot c (CanvasMouseDown e known)) evs in
  pxToMeter (params c') = pxToMeter (params c) /\
  calibrationPoints c' = calibrationPoints c ++ [toCanvasCoords e].
Proof.
  intros Hlen Hshift Hknown c'.
  assert (calibrationPoints (handle hypot c (CanvasMouseDown e known))
          = calibrationPoints c ++ [toCanvasCoords e] /\
          pxToMeter (params (handle hypot c (CanvasMouseDown e known)))
          = pxToMeter (params c)) as [Hca Hpx].
  { cbn. rewrite Hshift. unfold calibrateAddPoint. rewrite Hlen. cbn.
    apply rejected_answer in Hknown.
    destruct known as [val|]; [rewrite Hknown|]; by destruct c. }
  destruct (session_locked (handle hypot c (CanvasMouseDown e known)) evs) as [Hca' Hpx'].
  { rewrite Hca, length_app, Hlen. done. }
  subst c'. split; congruence.
Qed.

(** A number above zero divided by zero is [Infinity]. *)
Lemma positive_div_zero (val : float) :
  (0 <? val)%float = true -> (val / 0)%float = infinity.
Proof.
  intros Hval. apply Prim2SF_inj. rewrite FloatAxioms.div_spec.
  rewrite FloatAxioms.ltb_spec in Hval.
  change (Prim2SF 0) with (S754_zero false) in *.
  change (Prim2SF infinity) with (S754_infinity false).
  unfold SFltb, SFcompare in Hval. unfold SF64div, SFdiv.
  destruct (Prim2SF val) as [[]| [] | |[] m e]; try done.
Qed.

(** X11.  Calibrating on one point sets the scale to [Infinity].  When the
    second Shift+click falls on the stored calibration point, the pixel
    distance is [Math.hypot(0, 0)], which is 0, and any accepted answer
    makes [pxToMeter] infinite; the stored point is cleared as after any
    accepted answer. *)
Theorem calibration_on_one_point (c : component) (e : mouse) (val : float) :
  hypot 0 0 = 0%float ->
  calibrationPoints c = [toCanvasCoords e] ->
  isFinite (x (toCanvasCoords e)) = true ->
  isFinite (y (toCanvasCoords e)) = true ->
  shiftKey e = true ->
  rejected (Some val) = false ->
  let c' := handle hypot c (CanvasMouseDown e (Some val)) in
  pxToMeter (params c') = infinity /\ calibrationPoints c' = [].
Proof.
  intros Hhypot Hca Hx Hy Hshift Hval c'. subst c'.
  cbn in Hval. apply orb_false_elim in Hval as [Hnan Hpos].
  apply negb_false_iff in Hpos.
  cbn. rewrite Hshift. unfold calibrateAddPoint. rewrite Hca. cbn.
  rewrite Hnan, Hpos. cbn.
  unfold distance. rewrite (sub_diag _ Hx), (sub_diag _ Hy), Hhypot.
  rewrite (positive_div_zero val Hpos).
  by destruct c as [? ? ? ? ? ? ? ? [] ? ? ? ? ?].
Qed.

(** ** The number inputs *)

Lemma or_truthy (parsed old : float) :
  JS.truthy old = true -> JS.truthy (JS.or parsed old) = true.
Proof.
  intros Hold. unfold JS.or. by destruct (JS.truthy parsed) eqn:E.
Qed.

Lemma handle_numbers (c : component) (ev : event) :
  numbers_truthy c = true -> numbers_truthy (handle hypot c ev) = true.
Proof.
  intros Hc.
  destruct ev as [e known|e| | |m| |l2 r2|url|f parsed]; cbn.
  - destruct (shiftKey e).
    + unfold calibrateAddPoint.
      destruct c as [? ? ? ? ? ? ? ? [] ? ? ? ? ?]; cbn in *.
      by repeat case_match.
    + unfold handleMouseDown, add_to_edge. by destruct c as [? ? ? ? ? [] ? ? ? ? ? ? ? ?].
  - unfold handleMouseMove, add_to_edge. destruct (negb _); [done|].
    by destruct c as [? ? ? ? ? [] ? ? ? ? ? ? ? ?].
  - by destruct c.
  - by destruct c.
  - by destruct c.
  - by destruct c.
  - by destruct c.
  - destruct url; by destruct c.
  - unfold numbers_truthy in *.
    destruct c as [? ? ? ? ? ? ? ma [px mu br po vt] ? ? oi ? ?]; cbn in *.
    repeat (apply andb_prop in Hc as [Hc ?]).
    destruct f; cbn; repeat (apply andb_true_intro; split);
      try done; by apply or_truthy.
Qed.

(** X12.  The number inputs never store zero or NaN.  A field keeps its
    previous value when the typed text parses to 0 or to NaN, so over any
    session the mass, engine power, top speed, brake deceleration, tyre
    friction and iteration count stay different from zero and from NaN once
    they are; a negative number or [Infinity] is stored as typed. *)
Theorem session_numbers_truthy (c : component) (evs : list event) :
  numbers_truthy c = true -> numbers_truthy (session hypot c evs) = true.
Proof.
  unfold session. revert c.
  induction evs as [|ev evs IH]; intros c Hc; cbn; [done|].
  by apply IH, handle_numbers.
Qed.

End Handlers.

(** The mounted component, a Shift+click, a second one answered by
    cancelling, then a third one answered with 10 and a click on Clear. *)
Lemma rejected_calibration_locks_scale_witness :
  let c := handle hypot_ref mounted (CanvasMouseDown (shift_click 100 100) None) in
  let c' := session hypot_ref (handle hypot_ref c (CanvasMouseDown (shift_click 300 100) None))
              [CanvasMouseDown (shift_click 500 100) (Some 10%float); ClickClear] in
  pxToMeter (params c') = pxToMeter (params c) /\
  calibrationPoints c' = calibrationPoints c ++ [toCanvasCoords (shift_click 300 100)].
Proof.
  apply (rejected_calibration_locks_scale hypot_ref
           (handle hypot_ref mounted (CanvasMouseDown (shift_click 100 100) None))
           (shift_click 300 100) None
           [CanvasMouseDown (shift_click 500 100) (Some 10%float); ClickClear]);
    reflexivity.
Defined.

(** Two Shift+clicks on the same pixel, answered with 10. *)
Lemma calibration_on_one_point_witness :
  let c := handle hypot_ref mounted (CanvasMouseDown (shift_click 100 100) None) in
  let c' := handle hypot_ref c (CanvasMouseDown (shift_click 100 100) (Some 10%float)) in
  pxToMeter (params c') = infinity /\ calibrationPoints c' = [].
Proof.
  apply (calibration_on_one_point hypot_ref
           (handle hypot_ref mounted (CanvasMouseDown (shift_click 100 100) None))
           (shift_click 100 100) 10%float);
    reflexivity.
Defined.

(** On [sketch], which holds two points of the left edge and one of the
    right edge and is in the right mode: a press and a drag, the pointer
    leaving the canvas, a move that draws nothing, a Shift+click, a number
    input, the switch to the left mode and one more press.  The right edge
    grows from 1 to 3 points and the left edge from 2 to 3, and the points
    drawn before stay in front. *)
Lemma session_keeps_drawn_points_witness :
  leftPoints sketch = [Point 12 22; Point 13 22]%float /\
  rightPoints sketch = [Point 12 52]%float /\
  leftPoints (session hypot_ref sketch more_drawing)
  = [Point 12 22; Point 13 22; Point 14 22]%float /\
  rightPoints (session hypot_ref sketch more_drawing)
  = [Point 12 52; Point 22 52; Point 23 53]%float /\
  leftPoints sketch `prefix_of` leftPoints (session hypot_ref sketch more_drawing) /\
  rightPoints sketch `prefix_of` rightPoints (session hypot_ref sketch more_drawing).
Proof.
  do 4 (split; [reflexivity|]).
  apply (session_keeps_drawn_points hypot_ref sketch more_drawing).
  reflexivity.
Defined.

(** The mounted component, with 0 typed into the top speed field and -5
    into the engine power field. *)
Lemma session_numbers_truthy_witness :
  numbers_truthy
    (session hypot_ref mounted [ChangeNumber TopSpeed 0%float; ChangeNumber Power (-5)%float])
  = true.
Proof.
  apply (session_numbers_truthy hypot_ref mounted
           [ChangeNumber TopSpeed 0%float; ChangeNumber Power (-5)%float]).
  reflexivity.
Defined.
